(** * Script generation pipeline: validator, serializer and link normalizer

    A shallow embedding of [generate_script.py].  Python [str] values are
    lists of characters, Python [int] is [Z], and a raised exception is an
    explicit outcome of the function that raises it. *)

From Stdlib Require Import Ascii String.
From Stdlib Require Import List Permutation Sorted ZArith QArith Lia Bool Arith.
Import ListNotations.
Close Scope Q_scope.

(** ** Python strings *)

Module PyStr.

(** A string is the list of its characters; a character of this model is
    a code point below 256. *)
Definition str := list ascii.

(** A source literal. *)
Definition py (s : string) : str := list_ascii_of_string s.

Definition nl : ascii := ascii_of_nat 10.

Definition backslash : ascii := ascii_of_nat 92.

Fixpoint str_eqb (a b : str) : bool :=
  match a, b with
  | [], [] => true
  | x :: a', y :: b' => Ascii.eqb x y && str_eqb a' b'
  | _, _ => false
  end.

(** [c.isspace()] for the code points a character of this model can hold:
    TAB..CR, FS..US, SPACE, NEL and NBSP. *)
Definition isspace (c : ascii) : bool :=
  let n := nat_of_ascii c in
  ((9 <=? n) && (n <=? 13)) || ((28 <=? n) && (n <=? 32))
  || (n =? 133) || (n =? 160).

Fixpoint lstrip (s : str) : str :=
  match s with
  | [] => []
  | c :: rest => if isspace c then lstrip rest else s
  end.

Definition rstrip (s : str) : str := rev (lstrip (rev s)).

(** [s.strip()] *)
Definition strip (s : str) : str := rstrip (lstrip s).

(** Truth value of a string: [bool(s)]. *)
Definition truthy (s : str) : bool :=
  match s with [] => false | _ => true end.

(** [s.startswith(p)] *)
Fixpoint starts_with (p s : str) : bool :=
  match p, s with
  | [], _ => true
  | _ :: _, [] => false
  | x :: p', y :: s' => Ascii.eqb x y && starts_with p' s'
  end.

(** [p in s] *)
Fixpoint contains (p s : str) : bool :=
  starts_with p s ||
  match s with
  | [] => false
  | _ :: rest => contains p rest
  end.

(** [s.replace(old, new)] scans left to right and never rescans what it
    wrote; [skip] counts the characters of the current match still to be
    passed over. *)
Fixpoint replace_go (old new : str) (skip : nat) (s : str) : str :=
  match s with
  | [] => []
  | c :: rest =>
      match skip with
      | S n => replace_go old new n rest
      | O =>
          if starts_with old s
          then new ++ replace_go old new (length old - 1) rest
          else c :: replace_go old new 0 rest
      end
  end.

Definition replace (old new s : str) : str :=
  match old with
  | [] => new ++ flat_map (fun c => c :: new) s
  | _ :: _ => replace_go old new 0 s
  end.

(** [s.split(sep)] for a one-character separator. *)
Fixpoint split (sep : ascii) (s : str) : list str :=
  match s with
  | [] => [[]]
  | c :: rest =>
      if Ascii.eqb c sep then [] :: split sep rest
      else match split sep rest with
           | [] => [[c]]
           | l :: ls => (c :: l) :: ls
           end
  end.

(** [sep.join(parts)] *)
Fixpoint join (sep : str) (parts : list str) : str :=
  match parts with
  | [] => []
  | [p] => p
  | p :: ps => p ++ sep ++ join sep ps
  end.

(** [sorted(l, key=key)] and [sorted(l, key=key, reverse=True)]: both are
    stable, so elements with equal keys keep their input order. *)
Section Sorted.
Variable A : Type.
Variable key : A -> Z.
Variable reverse : bool.

Definition goes_before (x y : A) : bool :=
  if reverse then (key y <=? key x)%Z else (key x <=? key y)%Z.

Fixpoint insert_sorted (x : A) (l : list A) : list A :=
  match l with
  | [] => [x]
  | y :: ys => if goes_before x y then x :: l else y :: insert_sorted x ys
  end.

Fixpoint sorted (l : list A) : list A :=
  match l with
  | [] => []
  | x :: xs => insert_sorted x (sorted xs)
  end.
End Sorted.

Arguments goes_before {A} key reverse x y.
Arguments insert_sorted {A} key reverse x l.
Arguments sorted {A} key reverse l.

(** [list(range(n))] *)
Definition range (n : nat) : list Z := map Z.of_nat (seq 0 n).

Fixpoint list_Z_eqb (a b : list Z) : bool :=
  match a, b with
  | [], [] => true
  | x :: a', y :: b' => (x =? y)%Z && list_Z_eqb a' b'
  | _, _ => false
  end.

End PyStr.

Import PyStr.

(** A list whose keys never increase. *)
Definition descending {A : Type} (key : A -> Z) (l : list A) : Prop :=
  StronglySorted (fun a b => (key b <= key a)%Z) l.

(** ** Outcomes *)

Inductive Exn : Type :=
| ValueError (errors : list str)
| IndexError
| NameError.

Inductive Result (A : Type) : Type :=
| Return (a : A)
| Raise (e : Exn).

Arguments Return {A} a.
Arguments Raise {A} e.

(** ** Script schema *)

Record ScriptComponent : Type := mkComponent {
  component_type : str;
  content : str;
  position : Z
}.

(** The duration is a float in the source; the validator carries it along
    and never looks at it. *)
Record ArxflixScript : Type := mkScript {
  title : str;
  paper_id : str;
  target_duration_minutes : Q;
  components : list ScriptComponent
}.

Definition set_components (values : ArxflixScript) (cs : list ScriptComponent)
  : ArxflixScript :=
  mkScript (title values) (paper_id values) (target_duration_minutes values) cs.

Module ScriptComponentType.
Definition TEXT : str := py "Text".
Definition HEADLINE : str := py "Headline".
End ScriptComponentType.

(** The placeholder identifier that switches the identifier check off. *)
Definition sentinel : str := py "paper_id".

(** *** Violation messages *)

Definition msg_empty : str := py "Script must contain at least one component".

Definition msg_paper_id (expected : str) : str :=
  py "The paper id is " ++ expected
  ++ py ", you wrote a wrong one, correct it everywhere".

Definition msg_positions : str :=
  py "Component positions must be consecutive integers starting from 0".

Definition msg_start : str := py "Script must start with a Headline component".

Definition msg_consecutive (kind : str) : str :=
  py "Consecutive " ++ kind ++ py " components are not allowed".

Definition msg_invalid_type (kind : str) : str :=
  kind ++ py " is not a valid component_type." ++ [nl]
  ++ py "                             Type of autorized script component" ++ [nl]
  ++ py "                                    Only one of : " ++ [nl]
  ++ py "                                    - Text " ++ [nl]
  ++ py "                                    - Headline".

(** *** The validator *)

Definition kind_of (c : ScriptComponent) : str := strip (component_type c).

(** The loop over [range(1, len(sorted_components))]. *)
Fixpoint consecutive_errors (cs : list ScriptComponent) : list str :=
  match cs with
  | [] => []
  | prev :: rest =>
      match rest with
      | [] => []
      | cur :: _ =>
          (if str_eqb (kind_of cur) (kind_of prev)
              && negb (str_eqb (kind_of cur) ScriptComponentType.TEXT)
           then [msg_consecutive (kind_of cur)] else [])
          ++ consecutive_errors rest
      end
  end.

(** The loop over [values.components] that checks each kind. *)
Definition type_errors (cs : list ScriptComponent) : list str :=
  flat_map (fun comp =>
              if str_eqb (kind_of comp) (py "Text")
                 || str_eqb (kind_of comp) (py "Headline")
              then [] else [msg_invalid_type (kind_of comp)]) cs.

(** The tail of the validator: kind check, then raise or return. *)
Definition finish (errors : list str) (values : ArxflixScript)
  : Result ArxflixScript :=
  let errors := errors ++ type_errors (components values) in
  match errors with
  | [] => Return values
  | _ :: _ => Raise (ValueError errors)
  end.

Definition validate_script_structure (expected : str) (values : ArxflixScript)
  : Result ArxflixScript :=
  let comps := components values in
  let errors := match comps with [] => [msg_empty] | _ :: _ => [] end in
  if negb (str_eqb expected sentinel)
     && negb (str_eqb (paper_id values) expected)
  then finish (errors ++ [msg_paper_id expected]) values
  else
    let sorted_components := sorted position false comps in
    let positions := map position sorted_components in
    let errors :=
      errors ++ (if list_Z_eqb positions (range (length positions))
                 then [] else [msg_positions]) in
    match sorted_components with
    | [] => Raise IndexError
    | first :: _ =>
        let errors :=
          errors ++ (if str_eqb (kind_of first) ScriptComponentType.HEADLINE
                     then [] else [msg_start]) in
        let errors := errors ++ consecutive_errors sorted_components in
        finish errors (set_components values sorted_components)
    end.

(** ** Serialization *)

Definition script_line (comp : ScriptComponent) : str :=
  [backslash] ++ kind_of comp ++ py ": " ++ content comp.

Definition reconstruct_script (script : ArxflixScript) : str :=
  join [nl] (map script_line (components script)).

(** ** Link normalizer *)

(** A Python [dict] from [str] to [str]: keys are unique and keep the order
    of their first insertion. *)
Definition dict := list (str * str).

Fixpoint dict_set (d : dict) (k v : str) : dict :=
  match d with
  | [] => [(k, v)]
  | (k', v') :: rest =>
      if str_eqb k' k then (k', v) :: rest else (k', v') :: dict_set rest k v
  end.

(** [d.update(other)] *)
Definition dict_update (d other : dict) : dict :=
  fold_left (fun acc kv => dict_set acc (fst kv) (snd kv)) other d.

(** [d.get(k, default)] *)
Fixpoint dict_get (d : dict) (k default : str) : str :=
  match d with
  | [] => default
  | (k', v) :: rest => if str_eqb k' k then v else dict_get rest k default
  end.

(** [pattern.sub(lambda match: d.get(match.group(0), match.group(0)), text)]
    where [pattern] is the alternation of the escaped [keys], in that order:
    at each scan position the first alternative that matches wins, the match
    is replaced and the scan resumes after it.  The keys are non-empty
    (the caller filters them), so every match consumes a character. *)
Fixpoint re_sub (keys : list str) (d : dict) (skip : nat) (text : str) : str :=
  match text with
  | [] => []
  | c :: rest =>
      match skip with
      | S n => re_sub keys d n rest
      | O =>
          match find (fun k => starts_with k text) keys with
          | Some k => dict_get d k k ++ re_sub keys d (length k - 1) rest
          | None => c :: re_sub keys d 0 rest
          end
      end
  end.

Definition str_len (s : str) : Z := Z.of_nat (length s).

Definition valid_key (kv : str * str) : bool :=
  truthy (fst kv) && truthy (strip (fst kv)).

(** The dictionaries merged into one, then without the empty and the blank
    keys. *)
Definition combined_dict (dict_list : list dict) : dict :=
  filter valid_key (fold_left dict_update dict_list []).

Definition sorted_keys (dict_list : list dict) : list str :=
  sorted str_len true (map fst (combined_dict dict_list)).

Definition replace_keys_with_values (text : str) (dict_list : list dict) : str :=
  match combined_dict dict_list with
  | [] => text
  | _ :: _ =>
      re_sub (sorted_keys dict_list) (combined_dict dict_list) 0 text
  end.

Definition marker : str := py "![](".

Definition scoped_base (paper_id : str) : str :=
  py "https://arxiv.org/html/" ++ paper_id.

(** The shape every branch of [get_link] shares:
    ['![](' + link.replace(old, new).replace(')', '') + ')']. *)
Definition rewrap (old new link : str) : str :=
  marker ++ replace (py ")") [] (replace old new link) ++ py ")".

Definition get_link (link paper_id : str) : str :=
  if negb (truthy link) || negb (truthy (strip link)) then link
  else if contains (py "ar5iv.labs.arxiv.org") link then
    rewrap marker (py "https://") link
  else if contains (py "https:/arxiv.org/html/" ++ paper_id ++ py "/") link then
    rewrap marker (scoped_base paper_id ++ py "/") link
  else if contains (py "(arxiv.org") link then
    rewrap (py "![](arxiv.org") (scoped_base paper_id) link
  else
    rewrap marker (scoped_base paper_id ++ py "/") link.

Definition has_image (line : str) : bool :=
  truthy (strip line) && contains marker line.

(** One turn of the loop that builds [links]; the string operations of
    [get_link] raise nothing, so the handler of the loop is never entered. *)
Definition link_entry (paper_id line : str) : list dict :=
  let processed_link := get_link line paper_id in
  if truthy (strip line) && truthy (strip processed_link)
     && negb (str_eqb line processed_link)
  then [[(line, processed_link)]] else [].

Definition adjust_links (text_md paper_id : str) : str :=
  let lines_with_images := filter has_image (split nl text_md) in
  let links := flat_map (link_entry paper_id) lines_with_images in
  replace_keys_with_values text_md links.

(** ** Generation pipeline *)

Inductive Mode : Type := OPENROUTER_STRUCTURED_OUTPUTS | JSON_SCHEMA.

Record CompletionRequest : Type := mkRequest {
  mode : Mode;
  model : str;
  system_content : str;
  user_content : str;
  response_model : ArxflixScript -> Result ArxflixScript;
  temperature : Q;
  max_retries : Z;
  max_tokens : Z
}.

(** The schema of one request: the validator closed over the identifier. *)
Definition generate_model_with_context_check (paper_id paper_content : str)
  : ArxflixScript -> Result ArxflixScript :=
  validate_script_structure paper_id.

Section Pipeline.

(** The two system prompts and the process environment. *)
Variable SYSTEM_PROMPT SYSTEM_PROMPT_NO_LINK : str.
Variable OPENROUTER_API_KEY : option str.
Variable SCRIPGENETOR_MODEL : option str.

(** The structured-output client of the generative backend, and the text
    of an exception as an f-string prints it. *)
Variable create_with_completion :
  CompletionRequest -> Result (option ArxflixScript).
Variable exn_text : Exn -> str.

Definition OPENROUTER_MODEL : str :=
  match SCRIPGENETOR_MODEL with
  | Some m => m
  | None => py "qwen/qwen3-235b-a22b-thinking-2507"
  end.

Definition openrouter_request (paper paper_id : str) : CompletionRequest :=
  mkRequest
    (if negb (contains (py "gpt") OPENROUTER_MODEL)
     then OPENROUTER_STRUCTURED_OUTPUTS else JSON_SCHEMA)
    OPENROUTER_MODEL
    (if str_eqb paper_id sentinel
     then SYSTEM_PROMPT_NO_LINK else SYSTEM_PROMPT)
    (py "Here is the paper I want you to generate a script from, its paper_id is "
     ++ paper_id ++ py " : " ++ paper)
    (generate_model_with_context_check paper_id paper)
    (1 # 10)%Q 2%Z 8000%Z.

Definition generation_failed (e : Exn) : Exn :=
  ValueError [py "Script generation failed: " ++ exn_text e].

Definition _process_script_openrouter (paper paper_id : str) : Result str :=
  match OPENROUTER_API_KEY with
  | None | Some [] =>
      Raise (ValueError
               [py "You need to set the OPENROUTER_API_KEY environment variable."])
  | Some (_ :: _) =>
      match create_with_completion (openrouter_request paper paper_id) with
      | Raise e => Raise (generation_failed e)
      | Return None =>
          Raise (generation_failed
                   (ValueError [py "Empty response received from model"]))
      | Return (Some response) => Return (reconstruct_script response)
      end
  end.

(** The branches for the other methods call functions this module does
    not define. *)
Definition process_script (method paper_markdown paper_id : str)
           (from_pdf : bool) : Result str :=
  let '(pd_corrected_links, paper_id) :=
    if negb from_pdf
    then (adjust_links paper_markdown paper_id, paper_id)
    else (paper_markdown, py "paper_id") in
  if str_eqb method (py "openai") then Raise NameError
  else if str_eqb method (py "local") then Raise NameError
  else if str_eqb method (py "gemini") then Raise NameError
  else if str_eqb method (py "groq") then Raise NameError
  else if str_eqb method (py "openrouter")
  then _process_script_openrouter pd_corrected_links paper_id
  else Raise (ValueError [py "Invalid method. Please choose 'openai'."]).

End Pipeline.

(** ** Reading the serialized text back *)

(** [s.partition(sep)]: the text before and after the first [sep]. *)
Fixpoint partition_at (sep s : str) : option (str * str) :=
  if starts_with sep s then Some ([], skipn (length sep) s)
  else match s with
       | [] => None
       | c :: rest =>
           match partition_at sep rest with
           | Some (before, after) => Some (c :: before, after)
           | None => None
           end
       end.

(** Modelled from the spec: the reader of the serialized script text belongs
    to the audio collaborator and is not among the sources; the spec fixes
    the format as one line per component, a backslash, the kind, a colon and
    a space, then the content. *)
Definition parse_line (line : str) : option (str * str) :=
  match line with
  | c :: rest =>
      if Ascii.eqb c backslash then partition_at (py ": ") rest else None
  | [] => None
  end.

Fixpoint parse_lines (lines : list str) : option (list (str * str)) :=
  match lines with
  | [] => Some []
  | l :: ls =>
      match parse_line l, parse_lines ls with
      | Some kc, Some rest => Some (kc :: rest)
      | _, _ => None
      end
  end.

Definition parse_script (text : str) : option (list (str * str)) :=
  parse_lines (split nl text).

(** ** Vocabulary of the data model *)

Definition is_headline (c : ScriptComponent) : bool :=
  str_eqb (kind_of c) ScriptComponentType.HEADLINE.

Definition is_text (c : ScriptComponent) : bool :=
  str_eqb (kind_of c) ScriptComponentType.TEXT.

Definition legal_kind (c : ScriptComponent) : bool :=
  is_text c || is_headline c.

Definition starts_with_headline (cs : list ScriptComponent) : bool :=
  match cs with
  | [] => false
  | c :: _ => is_headline c
  end.

Fixpoint no_adjacent_headlines (cs : list ScriptComponent) : bool :=
  match cs with
  | [] => true
  | a :: rest =>
      match rest with
      | [] => true
      | b :: _ => negb (is_headline a && is_headline b)
                  && no_adjacent_headlines rest
      end
  end.

Definition kind_content (c : ScriptComponent) : str * str :=
  (kind_of c, content c).

Definition no_newline (s : str) : Prop := ~ In nl s.

(** A line keeps the text around its reference when the output differs from
    it only between the marker and the closing parenthesis. *)
Definition surrounding_text_preserved (line out : str) : Prop :=
  forall before ref after,
    line = before ++ marker ++ ref ++ py ")" ++ after ->
    ~ In ")"%char ref ->
    exists ref', out = before ++ marker ++ ref' ++ py ")" ++ after.

(** ** Sample candidates *)

Definition component (kind text : string) (pos : Z) : ScriptComponent :=
  mkComponent (py kind) (py text) pos.

(** Three components at positions 1, 2, 3: a Text first, then two
    Headlines in a row. *)
Definition misordered_candidate : ArxflixScript :=
  mkScript (py "Attention Is All You Need") (py "1706.03762") 5
    [component "Text" "Welcome to this review!" 1;
     component "Headline" "Let's explore how attention works" 2;
     component "Headline" "Now we'll discover the results" 3].

(** A well ordered script whose second component has the retired kind. *)
Definition figure_candidate : ArxflixScript :=
  mkScript (py "Attention Is All You Need") (py "1706.03762") 5
    [component "Headline" "Let's explore how attention works" 0;
     component "Figure" "https://arxiv.org/html/1706.03762/x1.png" 1].

Definition two_beat_candidate : ArxflixScript :=
  mkScript (py "Understanding GPT-4") (py "2405.11273") 5
    [component "Text" "Welcome to this review!" 1;
     component " Headline" "Understanding GPT-4" 0].

(** One Headline whose content spans two lines, and the two-component
    script its serialization reads as. *)
Definition two_line_headline : ArxflixScript :=
  mkScript (py "Understanding GPT-4") (py "2405.11273") 5
    [mkComponent (py "Headline")
       (py "Understanding GPT-4" ++ [nl] ++ [backslash]
        ++ py "Text: Welcome to this review!")
       0].

Definition headline_then_text : ArxflixScript :=
  mkScript (py "Understanding GPT-4") (py "2405.11273") 5
    [component "Headline" "Understanding GPT-4" 0;
     component "Text" "Welcome to this review!" 1].

(** No key longer than [long] matches at the start of [text]. *)
Definition longest_here (keys : list str) (long text : str) : bool :=
  forallb (fun k => negb (starts_with k text) || (length k <=? length long))
          keys.

(** No key matches at a position inside [before] when [tail] follows it. *)
Fixpoint unmatched (keys : list str) (before tail : str) : bool :=
  match before with
  | [] => true
  | _ :: before' =>
      negb (existsb (fun k => starts_with k (before ++ tail)) keys)
      && unmatched keys before' tail
  end.

(** Two entries, the key of the first a prefix of the key of the second. *)
Definition nested_entries : list dict :=
  [[(py "![](a.png)", py "<short>")];
   [(py "![](a.png)![](b.png)", py "<long>")]].

(** Two entries, the first key inside the second, and a text where an
    occurrence of the first key begins one character before an occurrence
    of the second. *)
Definition overlapping_entries : list dict :=
  [[(py "aa", py "X")]; [(py "aab", py "Y")]].

(** What the normalizer makes of one line of the document. *)
Definition normalize_line (paper_id line : str) : str :=
  if contains marker line then get_link line paper_id else line.

Definition not_rparen (c : ascii) : bool := negb (Ascii.eqb ")"%char c).

(** ** Sample documents *)

Definition bare_reference : str := py "![](foo.png)".

Definition captioned_reference : str := py "(see) ![](a.png) end".

Definition reference_then_text : str := py "![](a)" ++ [nl] ++ py "hello".

Definition two_line_id : str := py "X" ++ [nl] ++ py "Y".

(** ** Further vocabulary *)

(** A list whose keys never decrease. *)
Definition ascending {A : Type} (key : A -> Z) (l : list A) : Prop :=
  StronglySorted (fun a b => (key a <= key b)%Z) l.

(** Two components the validator cannot tell apart: same kind once
    stripped, same position. *)
Definition same_beat (c c' : ScriptComponent) : Prop :=
  kind_of c = kind_of c' /\ position c = position c'.

(** What a call raised, if it raised. *)
Definition raised {A : Type} (r : Result A) : option Exn :=
  match r with
  | Return _ => None
  | Raise e => Some e
  end.

(** ** Environment check of the deployment configuration *)

Definition REQUIRED_ENV_VARS : list str :=
  [py "OPENROUTER_API_KEY"; py "SCRIPGENETOR_MODEL"].

(** [bool(os.getenv(var))] *)
Definition env_set (getenv : str -> option str) (var : str) : bool :=
  match getenv var with
  | Some (_ :: _) => true
  | _ => false
  end.

Inductive EnvCheck : Type :=
| EnvOk
| EnvironmentError (missing_vars : list str).

Definition validate_environment (getenv : str -> option str) : EnvCheck :=
  let missing_vars :=
    filter (fun var => negb (env_set getenv var)) REQUIRED_ENV_VARS in
  match missing_vars with
  | [] => EnvOk
  | _ :: _ => EnvironmentError missing_vars
  end.

(** ** Logging hooks *)

(** One element of the message list of a completion call: a dictionary,
    read through its role and content, or something else. *)
Inductive PyMessage : Type :=
| DictMessage (role content : option str)
| NotADict.

(** The keyword arguments of a completion call that the hooks read. *)
Record CompletionKwargs : Type := mkKwargs {
  kw_model : option str;
  kw_messages : option (list PyMessage);
  kw_contents : option (list PyMessage);
  kw_chat_history : option (list PyMessage);
  kw_temperature : option Q;
  kw_top_p : option Q;
  kw_stream : option bool
}.

(** What [on_kwargs] keeps of them. *)
Record KeptKwargs : Type := mkKept {
  kept_model : option str;
  kept_messages : option (list PyMessage);
  kept_temperature : option Q;
  kept_top_p : option Q;
  kept_stream : option bool
}.

(** A choice of a completion: the content of its message when it has a
    message, and its text. *)
Record Choice : Type := mkChoice {
  message_content : option (option str);
  choice_text : option str
}.

Record Completion : Type := mkCompletion {
  choices : option (list Choice)
}.

Record HookState : Type := mkHookState {
  state_kwargs : option KeptKwargs;
  state_response : option Completion
}.

Definition truthy_str (s : option str) : bool :=
  match s with
  | Some (_ :: _) => true
  | _ => false
  end.

Definition truthy_list {A : Type} (l : option (list A)) : bool :=
  match l with
  | Some (_ :: _) => true
  | _ => false
  end.

(** [a or b] on optional lists *)
Definition or_else {A : Type} (a b : option (list A)) : option (list A) :=
  if truthy_list a then a else b.

Definition on_kwargs (state : HookState) (kwargs : CompletionKwargs)
  : HookState :=
  mkHookState
    (Some (mkKept (kw_model kwargs)
             (or_else (kw_messages kwargs)
                (or_else (kw_contents kwargs) (kw_chat_history kwargs)))
             (kw_temperature kwargs) (kw_top_p kwargs) (kw_stream kwargs)))
    (state_response state).

Definition on_response (state : HookState) (response : option Completion)
  : HookState :=
  mkHookState (state_kwargs state) response.

Definition extract_text_from_response (resp : option Completion)
  : option str :=
  match resp with
  | Some r =>
      match choices r with
      | Some (choice0 :: _) =>
          match message_content choice0 with
          | Some (Some (c :: cs)) => Some (c :: cs)
          | _ =>
              match choice_text choice0 with
              | Some (c :: cs) => Some (c :: cs)
              | _ => None
              end
          end
      | _ => None
      end
  | None => None
  end.

(** The loop over the messages: the content of the last dictionary whose
    role is user. *)
Definition last_user_prompt (messages : list PyMessage) : option str :=
  fold_left (fun user_prompt m =>
               match m with
               | DictMessage (Some role) content =>
                   if str_eqb role (py "user") then content else user_prompt
               | _ => user_prompt
               end) messages None.

Definition log_line (tag label text : str) : str :=
  py "[" ++ tag ++ py "] " ++ label ++ text.

(** The records [on_parse_error] hands to [logger.error], in order. *)
Definition on_parse_error (tag : str) (state : HookState) (error : str)
  : list str :=
  let model :=
    match state_kwargs state with Some k => kept_model k | None => None end in
  let messages :=
    match state_kwargs state with
    | Some k => kept_messages k
    | None => None
    end in
  let raw_text := extract_text_from_response (state_response state) in
  [log_line tag (py "Parse error: ") error]
  ++ match model with
     | Some (c :: m) => [log_line tag (py "Model: ") (c :: m)]
     | _ => []
     end
  ++ match messages with
     | Some (m :: ms) =>
         match last_user_prompt (m :: ms) with
         | Some (c :: p) =>
             [log_line tag (py "Prompt excerpt: ") (firstn 1000 (c :: p))]
         | _ => []
         end
     | _ => []
     end
  ++ match raw_text with
     | Some (c :: t) =>
         [log_line tag (py "Raw completion excerpt: ") (firstn 1000 (c :: t))]
     | _ => []
     end.

Definition on_completion_error (tag error : str) : list str :=
  [log_line tag (py "Completion error: ") error].

Definition on_last_attempt (tag error : str) : list str :=
  [log_line tag (py "Last attempt failed: ") error].

(** The events the hooks are registered for, and what one event does to
    the state and to the log. *)
Inductive HookEvent : Type :=
| COMPLETION_KWARGS (kwargs : CompletionKwargs)
| COMPLETION_RESPONSE (response : option Completion)
| PARSE_ERROR (error : str)
| COMPLETION_ERROR (error : str)
| COMPLETION_LAST_ATTEMPT (error : str).

Definition emit (tag : str) (sl : HookState * list str) (ev : HookEvent)
  : HookState * list str :=
  let '(state, log) := sl in
  match ev with
  | COMPLETION_KWARGS kwargs => (on_kwargs state kwargs, log)
  | COMPLETION_RESPONSE response => (on_response state response, log)
  | PARSE_ERROR error => (state, log ++ on_parse_error tag state error)
  | COMPLETION_ERROR error => (state, log ++ on_completion_error tag error)
  | COMPLETION_LAST_ATTEMPT error => (state, log ++ on_last_attempt tag error)
  end.

(** [create_logging_hooks(tag)] starts from an empty state; the hooks then
    see the events of the client in order. *)
Definition create_logging_hooks (tag : str) (events : list HookEvent)
  : HookState * list str :=
  fold_left (emit tag) events (mkHookState None None, []).

(** ** Legacy correction of figure links *)

(** [s.endswith(suffix)] *)
Definition endswith (suffix s : str) : bool :=
  starts_with (rev suffix) (rev s).

(** [l[-1]] and [l[-2]] *)
Definition last_item (l : list str) : Result str :=
  match rev l with
  | x :: _ => Return x
  | [] => Raise IndexError
  end.

Definition item_before_last (l : list str) : Result str :=
  match rev l with
  | _ :: y :: _ => Return y
  | _ => Raise IndexError
  end.

(** [s.split(sep)[0]] *)
Definition before_first (sep s : str) : str :=
  match partition_at sep s with
  | Some (before, _) => before
  | None => s
  end.

Definition ar5iv_html : str := py "https://ar5iv.labs.arxiv.org/html/".

(** The first statement of [_correct_result_link]: the base address. *)
Definition ar5iv_url (url : str) : Result str :=
  if negb (contains (py "ar5iv") url) then
    let tmp_url := split "/"%char url in
    match last_item tmp_url with
    | Raise e => Raise e
    | Return x =>
        if negb (str_eqb x []) then Return (ar5iv_html ++ x)
        else match item_before_last tmp_url with
             | Raise e => Raise e
             | Return y => Return (ar5iv_html ++ y)
             end
    end
  else Return url.

Definition figure_url (url tmp_line : str) : Result str :=
  if contains (py "/html/") tmp_line
  then Return (before_first (py "/html/") url ++ tmp_line)
  else
    match tmp_line with
    | [] => Raise IndexError
    | c :: rest =>
        Return ((if endswith (py "/") url then url else url ++ py "/")
                ++ (if negb (Ascii.eqb c "/"%char) then tmp_line else rest))
    end.

(** The answer to one [requests.head]: the status code and the
    Content-Type header (empty when absent); [None] when the request
    raised.  The network is asked with the number of requests made so
    far, so that it may answer the same address differently. *)
Definition Network : Type := nat -> str -> option (Z * str).

Definition is_png (response : Z * str) : bool :=
  (fst response =? 200)%Z && contains (py "image/png") (snd response).

Definition needs_correction (line : str) : bool :=
  contains (py "Figure: ") line && negb (starts_with (py "https") line).

(** One turn of the loop: the segment after the turn and the number of
    requests made. *)
Definition correct_line (head : Network) (url : str) (calls : nat)
           (line : str) : Result (str * nat) :=
  if needs_correction line then
    let tmp_line := replace (py "Figure: ") [] line in
    match figure_url url tmp_line with
    | Raise e => Raise e
    | Return fu =>
        match head calls fu with
        | None => Return (line, S calls)
        | Some response =>
            if is_png response then Return (py "Figure: " ++ fu, S calls)
            else
              let fu' := replace (py "ar5iv.labs.") [] fu in
              match head (S calls) fu' with
              | None => Return (line, S (S calls))
              | Some response' =>
                  if is_png response'
                  then Return (py "Figure: " ++ fu', S (S calls))
                  else Return (line, S (S calls))
              end
        end
    end
  else Return (line, calls).

Fixpoint correct_lines (head : Network) (url : str) (calls : nat)
         (lines : list str) : Result (list str) :=
  match lines with
  | [] => Return []
  | line :: rest =>
      match correct_line head url calls line with
      | Raise e => Raise e
      | Return (line', calls') =>
          match correct_lines head url calls' rest with
          | Raise e => Raise e
          | Return rest' => Return (line' :: rest')
          end
      end
  end.

Definition _correct_result_link (head : Network) (script url : str)
  : Result str :=
  match ar5iv_url url with
  | Raise e => Raise e
  | Return url' =>
      match correct_lines head url' 0 (split "n"%char script) with
      | Raise e => Raise e
      | Return split_script => Return (join (py "n") split_script)
      end
  end.

(** The message list [_process_script_openrouter] passes to the client. *)
Definition request_messages (request : CompletionRequest) : list PyMessage :=
  [DictMessage (Some (py "system")) (Some (system_content request));
   DictMessage (Some (py "user")) (Some (user_content request))].




(** * Properties *)

(** ** Strings and sorting *)

Lemma str_eqb_eq (a b : str) : str_eqb a b = true <-> a = b.
Proof.
  revert b; induction a as [|x a IH]; intros [|y b]; simpl; split; try easy.
  - intros H. apply andb_prop in H as [Hx Hr].
    apply Ascii.eqb_eq in Hx. apply IH in Hr. congruence.
  - intros [= -> ->]. rewrite Ascii.eqb_refl. now apply IH.
Qed.

Lemma str_eqb_refl (a : str) : str_eqb a a = true.
Proof. now apply str_eqb_eq. Qed.

Lemma str_eqb_neq (a b : str) : str_eqb a b = false <-> a <> b.
Proof.
  split.
  - intros H E. apply str_eqb_eq in E. congruence.
  - intros H. destruct (str_eqb a b) eqn:E; [|easy].
    apply str_eqb_eq in E. contradiction.
Qed.

Lemma list_Z_eqb_refl (l : list Z) : list_Z_eqb l l = true.
Proof. induction l; simpl; [easy|]. now rewrite Z.eqb_refl. Qed.

Lemma list_Z_eqb_eq (a b : list Z) : list_Z_eqb a b = true -> a = b.
Proof.
  revert b; induction a as [|x a IH]; intros [|y b]; simpl; try easy.
  intros H. apply andb_prop in H as [Hx Hr].
  apply Z.eqb_eq in Hx. apply IH in Hr. congruence.
Qed.

Section SortedFacts.
Variable A : Type.
Variable key : A -> Z.
Variable reverse : bool.

Lemma insert_sorted_perm (x : A) (l : list A) :
  Permutation (x :: l) (insert_sorted key reverse x l).
Proof.
  induction l as [|y ys IH]; simpl; [reflexivity|].
  destruct (goes_before key reverse x y); [reflexivity|].
  rewrite perm_swap. now apply perm_skip.
Qed.

Lemma sorted_perm (l : list A) : Permutation l (sorted key reverse l).
Proof.
  induction l as [|x xs IH]; simpl; [reflexivity|].
  rewrite <- insert_sorted_perm. now apply perm_skip.
Qed.

Lemma sorted_length (l : list A) : length (sorted key reverse l) = length l.
Proof. symmetry. apply Permutation_length, sorted_perm. Qed.

Lemma sorted_In (x : A) (l : list A) : In x (sorted key reverse l) <-> In x l.
Proof.
  split; apply Permutation_in;
    [apply Permutation_sym|]; apply sorted_perm.
Qed.

Lemma sorted_forallb (p : A -> bool) (l : list A) :
  forallb p (sorted key reverse l) = forallb p l.
Proof.
  apply eq_true_iff_eq. rewrite !forallb_forall.
  split; intros H x Hx; apply H; now apply sorted_In.
Qed.

Lemma sorted_nil_inv (l : list A) : sorted key reverse l = [] -> l = [].
Proof.
  intros H. apply length_zero_iff_nil.
  rewrite <- sorted_length, H. reflexivity.
Qed.
End SortedFacts.

(** ** Validator *)

Lemma consecutive_errors_shape (cs : list ScriptComponent) (m : str) :
  In m (consecutive_errors cs) -> exists kind, m = msg_consecutive kind.
Proof.
  induction cs as [|prev rest IH]; simpl; [easy|].
  destruct rest as [|cur rest']; [easy|].
  intros H. apply in_app_or in H as [H|H]; [|now apply IH].
  destruct (_ && _); [|easy].
  destruct H as [<-|[]]. now eexists.
Qed.

Lemma type_errors_shape (cs : list ScriptComponent) (m : str) :
  In m (type_errors cs) -> exists kind, m = msg_invalid_type kind.
Proof.
  unfold type_errors. rewrite in_flat_map. intros (c & _ & H).
  destruct (_ || _); [easy|].
  destruct H as [<-|[]]. now eexists.
Qed.

Lemma type_errors_legal (cs : list ScriptComponent) :
  forallb legal_kind cs = true -> type_errors cs = [].
Proof.
  unfold type_errors.
  induction cs as [|c cs IH]; cbn [forallb flat_map]; [easy|].
  intros H. apply andb_prop in H as [Hc Hcs].
  unfold legal_kind, is_text, is_headline in Hc.
  unfold ScriptComponentType.TEXT, ScriptComponentType.HEADLINE in Hc.
  rewrite Hc. now apply IH.
Qed.

Lemma type_errors_nil_legal (cs : list ScriptComponent) :
  type_errors cs = [] -> forallb legal_kind cs = true.
Proof.
  unfold type_errors.
  induction cs as [|c cs IH]; cbn [forallb flat_map]; [easy|].
  unfold legal_kind at 1, is_text, is_headline.
  unfold ScriptComponentType.TEXT, ScriptComponentType.HEADLINE.
  destruct (_ || _); cbn [app andb]; [exact IH|discriminate].
Qed.

Lemma consecutive_errors_legal (cs : list ScriptComponent) :
  forallb legal_kind cs = true ->
  no_adjacent_headlines cs = true ->
  consecutive_errors cs = [].
Proof.
  induction cs as [|prev rest IH]; [easy|].
  destruct rest as [|cur rest']; [easy|].
  intros Hk Ha.
  change (forallb legal_kind (prev :: cur :: rest'))
    with (legal_kind prev && forallb legal_kind (cur :: rest')) in Hk.
  apply andb_prop in Hk as [Hp Hrest].
  change (no_adjacent_headlines (prev :: cur :: rest'))
    with (negb (is_headline prev && is_headline cur)
          && no_adjacent_headlines (cur :: rest')) in Ha.
  apply andb_prop in Ha as [Hpc Ha].
  change (consecutive_errors (prev :: cur :: rest'))
    with ((if str_eqb (kind_of cur) (kind_of prev)
              && negb (str_eqb (kind_of cur) ScriptComponentType.TEXT)
           then [msg_consecutive (kind_of cur)] else [])
          ++ consecutive_errors (cur :: rest')).
  rewrite (IH Hrest Ha), app_nil_r.
  assert (Hcur : legal_kind cur = true)
    by (simpl in Hrest; now apply andb_prop in Hrest as [? _]).
  unfold legal_kind, is_text, is_headline in *.
  destruct (str_eqb (kind_of cur) ScriptComponentType.TEXT) eqn:Et;
    [now rewrite andb_false_r|].
  simpl in Hcur. apply str_eqb_eq in Hcur.
  destruct (str_eqb (kind_of cur) (kind_of prev)) eqn:Ep; [|easy].
  apply str_eqb_eq in Ep. rewrite <- Ep, Hcur in Hpc.
  now rewrite str_eqb_refl in Hpc.
Qed.

Lemma starts_with_app (p r : str) : starts_with p (p ++ r) = true.
Proof. induction p as [|x p IH]; simpl; [easy|]. now rewrite Ascii.eqb_refl. Qed.

Lemma starts_with_inv (p s : str) :
  starts_with p s = true -> exists r, s = p ++ r.
Proof.
  revert s; induction p as [|x p IH]; intros s H; [now exists s|].
  destruct s as [|y s]; [easy|]. simpl in H.
  apply andb_prop in H as [Hx Hr]. apply Ascii.eqb_eq in Hx.
  destruct (IH _ Hr) as [r ->]. exists r. now subst.
Qed.

Lemma contains_intro (a p b : str) : contains p (a ++ p ++ b) = true.
Proof.
  induction a as [|x a IH].
  - simpl app. destruct (p ++ b) eqn:E; simpl; rewrite <- E, starts_with_app;
      reflexivity.
  - simpl. rewrite IH. apply orb_true_r.
Qed.

Lemma contains_inv (p s : str) :
  contains p s = true -> exists a b, s = a ++ p ++ b.
Proof.
  induction s as [|c s IH]; simpl; intros H.
  - rewrite orb_false_r in H. apply starts_with_inv in H as [r Hr].
    now exists [], r.
  - apply orb_prop in H as [H|H].
    + apply starts_with_inv in H as [r Hr]. now exists [], r.
    + destruct (IH H) as (a & b & ->). now exists (c :: a), b.
Qed.

(** *** Which message is which *)

Lemma msg_invalid_type_not_paper_id (kind expected : str) :
  msg_invalid_type kind <> msg_paper_id expected.
Proof.
  intros H. apply (f_equal (@rev ascii)) in H.
  unfold msg_invalid_type, msg_paper_id in H.
  rewrite !rev_app_distr in H. simpl in H. discriminate H.
Qed.

Lemma else_branch_messages (expected m : str) (cs cs' : list ScriptComponent) :
  In m ([msg_empty] ++ [msg_positions] ++ [msg_start]
        ++ consecutive_errors cs ++ type_errors cs') ->
  m <> msg_paper_id expected.
Proof.
  intros H E. subst m. cbn [app In] in H.
  destruct H as [H|[H|[H|H]]]; try discriminate H.
  apply in_app_or in H as [H|H].
  - apply consecutive_errors_shape in H as [k H]. discriminate H.
  - apply type_errors_shape in H as [k H].
    symmetry in H. now apply msg_invalid_type_not_paper_id in H.
Qed.

Lemma finish_outcome (errors : list str) (values : ArxflixScript) :
  finish errors values =
    match errors ++ type_errors (components values) with
    | [] => Return values
    | _ :: _ => Raise (ValueError (errors ++ type_errors (components values)))
    end.
Proof. reflexivity. Qed.

(** What the validator does once the identifier check has failed. *)
Lemma mismatch_outcome (expected : str) (values : ArxflixScript) :
  expected <> sentinel ->
  paper_id values <> expected ->
  validate_script_structure expected values =
    Raise (ValueError
             (match components values with [] => [msg_empty] | _ :: _ => [] end
              ++ [msg_paper_id expected] ++ type_errors (components values))).
Proof.
  intros Hs Hm. unfold validate_script_structure.
  apply str_eqb_neq in Hs, Hm. rewrite Hs, Hm. cbn [negb andb].
  rewrite finish_outcome, <- app_assoc.
  destruct (components values); reflexivity.
Qed.

(** What the validator does once the identifier check has passed. *)
Lemma match_outcome (expected : str) (values : ArxflixScript) :
  expected = sentinel \/ paper_id values = expected ->
  validate_script_structure expected values =
    let sorted_components := sorted position false (components values) in
    match sorted_components with
    | [] => Raise IndexError
    | first :: _ =>
        finish
          ((if list_Z_eqb (map position sorted_components)
                 (range (length sorted_components))
            then [] else [msg_positions])
           ++ (if is_headline first then [] else [msg_start])
           ++ consecutive_errors sorted_components)
          (set_components values sorted_components)
    end.
Proof.
  intros H. unfold validate_script_structure.
  assert (E : negb (str_eqb expected sentinel)
              && negb (str_eqb (paper_id values) expected) = false).
  { destruct H as [->| <-]; rewrite str_eqb_refl;
      [reflexivity | apply andb_false_r]. }
  rewrite E. cbv zeta. rewrite length_map.
  destruct (components values) as [|c cs] eqn:Ec; [reflexivity|].
  destruct (sorted position false (c :: cs)); [reflexivity|].
  unfold is_headline. now rewrite app_nil_l, <- app_assoc.
Qed.

Lemma ordering_messages (expected m : str) (b1 b2 : bool)
      (cs cs' : list ScriptComponent) :
  In m ((if b1 then [] else [msg_positions])
        ++ (if b2 then [] else [msg_start])
        ++ consecutive_errors cs ++ type_errors cs') ->
  m <> msg_paper_id expected.
Proof.
  intros H. apply else_branch_messages with (cs := cs) (cs' := cs').
  cbn [app]. right.
  destruct b1, b2; cbn [app In] in H |- *; intuition.
Qed.

(** C2, at the failing input: with an empty component list and an expected
    identifier that is the sentinel, or equal to the candidate's, the
    emptiness violation is recorded and then the first element of the empty
    sorted list is read, which raises IndexError; no violation list is
    returned. *)
Theorem empty_components_raise_index_error (t pid : str) (d : Q) :
  validate_script_structure sentinel (mkScript t pid d []) = Raise IndexError
  /\ validate_script_structure pid (mkScript t pid d []) = Raise IndexError.
Proof. split; rewrite match_outcome; auto. Qed.

(** C5 as stated fails: a two-component script at positions 0 and 1 that
    starts with a Headline, has no two Headlines in a row and carries the
    expected identifier is rejected when its second kind is not a legal
    one. *)
Lemma ordered_script_with_illegal_kind_rejected :
  ~ (forall (expected : str) (values : ArxflixScript),
        let sorted_components := sorted position false (components values) in
        map position sorted_components = range (length sorted_components) ->
        starts_with_headline sorted_components = true ->
        no_adjacent_headlines sorted_components = true ->
        paper_id values = expected ->
        validate_script_structure expected values
        = Return (set_components values sorted_components)).
Proof.
  intros H.
  specialize (H (py "1706.03762") figure_candidate
                eq_refl eq_refl eq_refl eq_refl).
  vm_compute in H. discriminate H.
Qed.

(** C5, amended: when moreover every component has a legal kind, validation
    succeeds; the script returned has the same title, identifier and
    duration, and its components are those of the candidate, reordered by
    position. *)
Theorem valid_sequence_accepted (expected : str) (values : ArxflixScript) :
  let sorted_components := sorted position false (components values) in
  map position sorted_components = range (length sorted_components) ->
  starts_with_headline sorted_components = true ->
  no_adjacent_headlines sorted_components = true ->
  paper_id values = expected ->
  forallb legal_kind (components values) = true ->
  validate_script_structure expected values
  = Return (set_components values sorted_components)
  /\ Permutation (components values) sorted_components.
Proof.
  intros sc Hpos Hfirst Hadj Hid Hkind.
  split; [|apply sorted_perm].
  rewrite match_outcome by now right. cbv zeta.
  assert (Hk : forallb legal_kind sc = true)
    by (unfold sc; now rewrite sorted_forallb).
  subst sc.
  destruct (sorted position false (components values)) as [|first rest];
    [discriminate Hfirst|].
  rewrite Hpos, list_Z_eqb_refl.
  cbn [starts_with_headline] in Hfirst. rewrite Hfirst.
  rewrite (consecutive_errors_legal _ Hk Hadj).
  rewrite finish_outcome. cbn [app set_components components].
  now rewrite (type_errors_legal _ Hk).
Qed.

Lemma valid_sequence_accepted_witness :
  validate_script_structure (py "2405.11273") two_beat_candidate
  = Return (set_components two_beat_candidate
              (sorted position false (components two_beat_candidate)))
  /\ Permutation (components two_beat_candidate)
       (sorted position false (components two_beat_candidate)).
Proof.
  apply (valid_sequence_accepted (py "2405.11273") two_beat_candidate);
    reflexivity.
Defined.



Lemma adjacent_headlines_reported (cs : list ScriptComponent) :
  no_adjacent_headlines cs = false ->
  In (msg_consecutive ScriptComponentType.HEADLINE) (consecutive_errors cs).
Proof.
  induction cs as [|prev rest IH]; [discriminate|].
  destruct rest as [|cur rest']; [discriminate|].
  change (no_adjacent_headlines (prev :: cur :: rest'))
    with (negb (is_headline prev && is_headline cur)
          && no_adjacent_headlines (cur :: rest')).
  change (consecutive_errors (prev :: cur :: rest'))
    with ((if str_eqb (kind_of cur) (kind_of prev)
              && negb (str_eqb (kind_of cur) ScriptComponentType.TEXT)
           then [msg_consecutive (kind_of cur)] else [])
          ++ consecutive_errors (cur :: rest')).
  intros H. apply in_or_app. apply andb_false_iff in H as [H|H].
  - left. apply negb_false_iff, andb_prop in H as [Hp Hc].
    unfold is_headline in Hp, Hc. apply str_eqb_eq in Hp, Hc.
    rewrite Hp, Hc, str_eqb_refl. now left.
  - right. now apply IH.
Qed.

Lemma illegal_kind_reported (cs : list ScriptComponent) :
  forallb legal_kind cs = false ->
  exists c, In c cs /\ In (msg_invalid_type (kind_of c)) (type_errors cs).
Proof.
  intros H.
  assert (Hex : existsb (fun c => negb (legal_kind c)) cs = true).
  { induction cs as [|c cs IH]; [discriminate|]. cbn [forallb existsb] in *.
    destruct (legal_kind c); [now apply IH|reflexivity]. }
  apply existsb_exists in Hex as (c & Hc & Hk). exists c. split; [exact Hc|].
  unfold type_errors. apply in_flat_map. exists c. split; [exact Hc|].
  apply negb_true_iff in Hk. unfold legal_kind, is_text, is_headline in Hk.
  unfold ScriptComponentType.TEXT, ScriptComponentType.HEADLINE in Hk.
  rewrite Hk. now left.
Qed.

(** Once the identifier check has passed on a candidate with components,
    nothing is hidden: the validator returns the sorted script or raises
    the list of violations, and that list has the violation of each of the
    invariants 2, 3, 4 and 6 the sorted components break. *)
Lemma violations_complete_when_id_passes
      (expected : str) (values : ArxflixScript) :
  expected = sentinel \/ paper_id values = expected ->
  components values <> [] ->
  let sc := sorted position false (components values) in
  exists errors,
    validate_script_structure expected values
    = match errors with
      | [] => Return (set_components values sc)
      | _ :: _ => Raise (ValueError errors)
      end
    /\ (map position sc <> range (length sc) -> In msg_positions errors)
    /\ (starts_with_headline sc = false -> In msg_start errors)
    /\ (no_adjacent_headlines sc = false ->
        In (msg_consecutive ScriptComponentType.HEADLINE) errors)
    /\ (forallb legal_kind sc = false ->
        exists c, In c sc /\ In (msg_invalid_type (kind_of c)) errors).
Proof.
  intros Hid Hne sc. rewrite (match_outcome _ _ Hid). cbv zeta. fold sc.
  destruct sc as [|first rest] eqn:E.
  { apply sorted_nil_inv in E. contradiction. }
  rewrite finish_outcome. cbn [set_components components].
  eexists. split; [reflexivity|]. repeat split.
  - intros H. apply in_or_app. left. apply in_or_app. left.
    destruct (list_Z_eqb _ _) eqn:Ez; [|now left].
    apply list_Z_eqb_eq in Ez. contradiction.
  - cbn [starts_with_headline]. intros H. rewrite H.
    apply in_or_app. left. apply in_or_app. right. now left.
  - intros H. apply in_or_app. left. apply in_or_app. right.
    apply in_or_app. right. now apply adjacent_headlines_reported.
  - intros H. destruct (illegal_kind_reported _ H) as (c & Hc & Hin).
    exists c. split; [exact Hc|]. apply in_or_app. now right.
Qed.

(** C1 as stated fails: the candidate breaks invariants 2, 3 and 4, and
    under an expected identifier other than its own the validator reports
    the identifier violation alone. *)
Lemma mismatch_hides_ordering_violations :
  let sc := sorted position false (components misordered_candidate) in
  map position sc <> range (length sc)
  /\ starts_with_headline sc = false
  /\ no_adjacent_headlines sc = false
  /\ validate_script_structure (py "2405.11273") misordered_candidate
     = Raise (ValueError [msg_paper_id (py "2405.11273")]).
Proof.
  cbv zeta. repeat split; try reflexivity.
  vm_compute. discriminate.
Qed.

(** C1, amended: the validator does not stop at the first broken
    invariant, but it evaluates the ordering invariants only when the
    identifier check passes.  On a mismatch it raises the emptiness
    violation if there is no component, the identifier violation and one
    violation per illegal kind, and nothing else.  When the check passes on
    a candidate with components it sorts them and raises the complete
    list, with the violation of each of the invariants 2, 3, 4 and 6 that
    is broken, or returns the sorted script when the list is empty. *)
Theorem evaluated_invariants_all_reported
        (expected : str) (values : ArxflixScript) :
  (expected <> sentinel -> paper_id values <> expected ->
   validate_script_structure expected values
   = Raise (ValueError
              (match components values with
               | [] => [msg_empty]
               | _ :: _ => []
               end
               ++ [msg_paper_id expected]
               ++ type_errors (components values))))
  /\ (expected = sentinel \/ paper_id values = expected ->
      components values <> [] ->
      let sc := sorted position false (components values) in
      exists errors,
        validate_script_structure expected values
        = match errors with
          | [] => Return (set_components values sc)
          | _ :: _ => Raise (ValueError errors)
          end
        /\ (map position sc <> range (length sc) -> In msg_positions errors)
        /\ (starts_with_headline sc = false -> In msg_start errors)
        /\ (no_adjacent_headlines sc = false ->
            In (msg_consecutive ScriptComponentType.HEADLINE) errors)
        /\ (forallb legal_kind sc = false ->
            exists c, In c sc /\ In (msg_invalid_type (kind_of c)) errors)).
Proof.
  split.
  - apply mismatch_outcome.
  - apply violations_complete_when_id_passes.
Qed.

Lemma evaluated_invariants_all_reported_witness :
  validate_script_structure (py "2405.11273") figure_candidate
  = Raise (ValueError [msg_paper_id (py "2405.11273");
                       msg_invalid_type (py "Figure")])
  /\ exists errors,
       validate_script_structure (py "1706.03762") misordered_candidate
       = Raise (ValueError errors)
       /\ In msg_positions errors /\ In msg_start errors
       /\ In (msg_consecutive ScriptComponentType.HEADLINE) errors.
Proof.
  split.
  - apply (proj1 (evaluated_invariants_all_reported
                    (py "2405.11273") figure_candidate));
      intros H; vm_compute in H; discriminate H.
  - destruct (proj2 (evaluated_invariants_all_reported
                       (py "1706.03762") misordered_candidate))
      as (errors & Hv & Hp & Hs & Ha & _).
    + now right.
    + discriminate.
    + exists errors. repeat split.
      * destruct errors; [|exact Hv].
        assert (H : In msg_start []) by now apply Hs. destruct H.
      * apply Hp. vm_compute. discriminate.
      * now apply Hs.
      * now apply Ha.
Defined.

(** ** Serialization *)

Lemma split_app_sep (sep : ascii) (a b : str) :
  ~ In sep a -> split sep (a ++ sep :: b) = a :: split sep b.
Proof.
  induction a as [|c a IH]; intros Ha; simpl.
  - now rewrite Ascii.eqb_refl.
  - destruct (Ascii.eqb c sep) eqn:E.
    + apply Ascii.eqb_eq in E. exfalso. apply Ha. now left.
    + rewrite IH; [reflexivity|]. intros H. apply Ha. now right.
Qed.

Lemma split_no_sep (sep : ascii) (a : str) : ~ In sep a -> split sep a = [a].
Proof.
  induction a as [|c a IH]; intros Ha; simpl; [reflexivity|].
  destruct (Ascii.eqb c sep) eqn:E.
  - apply Ascii.eqb_eq in E. exfalso. apply Ha. now left.
  - rewrite IH; [reflexivity|]. intros H. apply Ha. now right.
Qed.

Lemma split_join (sep : ascii) (lines : list str) :
  lines <> [] ->
  (forall l, In l lines -> ~ In sep l) ->
  split sep (join [sep] lines) = lines.
Proof.
  induction lines as [|l ls IH]; [easy|]. intros _ Hl.
  destruct ls as [|l' ls'].
  - simpl. apply split_no_sep, Hl. now left.
  - change (join [sep] (l :: l' :: ls'))
      with (l ++ sep :: join [sep] (l' :: ls')).
    rewrite split_app_sep by (apply Hl; now left).
    f_equal. apply IH; [easy|]. intros x Hx. apply Hl. now right.
Qed.

Lemma parse_script_line (c : ScriptComponent) :
  legal_kind c = true -> parse_line (script_line c) = Some (kind_content c).
Proof.
  unfold legal_kind, is_text, is_headline, script_line, kind_content.
  intros H. apply orb_prop in H as [H|H]; apply str_eqb_eq in H; rewrite H;
    reflexivity.
Qed.

Lemma parse_script_lines (cs : list ScriptComponent) :
  forallb legal_kind cs = true ->
  parse_lines (map script_line cs) = Some (map kind_content cs).
Proof.
  induction cs as [|c cs IH]; [reflexivity|].
  cbn [forallb map parse_lines]. intros H. apply andb_prop in H as [Hc Hcs].
  now rewrite (parse_script_line _ Hc), (IH Hcs).
Qed.

Lemma script_line_no_newline (c : ScriptComponent) :
  legal_kind c = true -> no_newline (content c) -> no_newline (script_line c).
Proof.
  unfold legal_kind, is_text, is_headline, script_line, no_newline.
  intros H Hc Hin.
  apply orb_prop in H as [H|H]; apply str_eqb_eq in H; rewrite H in Hin;
    cbn in Hin; repeat (destruct Hin as [Hin|Hin]; [discriminate Hin|]);
    contradiction.
Qed.

(** What a successful validation tells about the script it returns. *)
Lemma validate_return_inv (expected : str) (values script : ArxflixScript) :
  validate_script_structure expected values = Return script ->
  script = set_components values (sorted position false (components values))
  /\ components script <> []
  /\ map position (components script) = range (length (components script))
  /\ starts_with_headline (components script) = true
  /\ consecutive_errors (components script) = []
  /\ forallb legal_kind (components script) = true.
Proof.
  intros Hv.
  assert (Hid : expected = sentinel \/ paper_id values = expected).
  { destruct (str_eqb expected sentinel) eqn:Es;
      [left; now apply str_eqb_eq|].
    destruct (str_eqb (paper_id values) expected) eqn:Em;
      [right; now apply str_eqb_eq|].
    apply str_eqb_neq in Es, Em.
    rewrite (mismatch_outcome _ _ Es Em) in Hv. discriminate Hv. }
  rewrite (match_outcome _ _ Hid) in Hv. cbv zeta in Hv.
  destruct (sorted position false (components values)) as [|first rest] eqn:E;
    [discriminate Hv|].
  rewrite finish_outcome in Hv.
  destruct (_ ++ type_errors _) eqn:El in Hv; [|discriminate Hv].
  injection Hv as <-. cbn [set_components components] in *.
  apply app_eq_nil in El as [El Ht].
  apply app_eq_nil in El as [Hp El].
  apply app_eq_nil in El as [Hf Hc].
  repeat split; try easy.
  - destruct (list_Z_eqb _ _) eqn:Hz in Hp; [|discriminate Hp].
    now apply list_Z_eqb_eq.
  - cbn [starts_with_headline]. now destruct (is_headline first).
  - now apply type_errors_nil_legal.
Qed.

(** C8 as stated fails: a validated script with one Headline whose content
    spans two lines and a validated script with a Headline and a Text
    serialize to the same text, so no reader of the text, whatever its
    format, recovers the components of every validated script. *)
Lemma serialization_not_injective :
  ~ (exists parse : str -> list (str * str),
        forall (expected : str) (values script : ArxflixScript),
          validate_script_structure expected values = Return script ->
          parse (reconstruct_script script)
          = map kind_content (components script)).
Proof.
  intros [parse H].
  assert (Ha := H (py "2405.11273") two_line_headline two_line_headline
                  eq_refl).
  assert (Hb := H (py "2405.11273") headline_then_text headline_then_text
                  eq_refl).
  assert (E : reconstruct_script two_line_headline
              = reconstruct_script headline_then_text) by reflexivity.
  rewrite E, Hb in Ha. vm_compute in Ha. discriminate Ha.
Qed.

(** C8, amended: for a validated script none of whose contents holds a line
    break, the text is one line per component, backslash, stripped kind,
    colon, space, content, joined by line breaks in ascending position
    order (positions 0..n-1), and reading the lines back gives the
    components' (stripped kind, content) pairs in that order. *)
Theorem serialization_round_trip
        (expected : str) (values script : ArxflixScript) :
  validate_script_structure expected values = Return script ->
  (forall c, In c (components script) -> no_newline (content c)) ->
  reconstruct_script script
  = join [nl] (map (fun c => [backslash] ++ strip (component_type c)
                                 ++ py ": " ++ content c)
                   (components script))
  /\ map position (components script) = range (length (components script))
  /\ split nl (reconstruct_script script)
     = map script_line (components script)
  /\ parse_script (reconstruct_script script)
     = Some (map kind_content (components script)).
Proof.
  intros Hv Hc.
  destruct (validate_return_inv _ _ _ Hv) as (_ & Hne & Hpos & _ & _ & Hk).
  assert (Hs : split nl (reconstruct_script script)
               = map script_line (components script)).
  { unfold reconstruct_script. apply split_join.
    - destruct (components script); [contradiction|discriminate].
    - intros l Hl. apply in_map_iff in Hl as (c & <- & Hin).
      apply script_line_no_newline; [|now apply Hc].
      rewrite forallb_forall in Hk. now apply Hk. }
  repeat split; try easy.
  unfold parse_script. rewrite Hs. now apply parse_script_lines.
Qed.

Lemma serialization_round_trip_witness :
  parse_script (reconstruct_script headline_then_text)
  = Some [(py "Headline", py "Understanding GPT-4");
          (py "Text", py "Welcome to this review!")].
Proof.
  apply (serialization_round_trip (py "2405.11273")
           headline_then_text headline_then_text).
  - reflexivity.
  - intros c Hc Hin. cbn in Hc.
    destruct Hc as [<-|[<-|[]]]; cbn in Hin;
      repeat (destruct Hin as [Hin|Hin]; [discriminate Hin|]);
      contradiction.
Defined.

(** ** Pipeline *)

Section PipelineFacts.
Variable SYSTEM_PROMPT SYSTEM_PROMPT_NO_LINK : str.
Variable OPENROUTER_API_KEY : option str.
Variable SCRIPGENETOR_MODEL : option str.
Variable create_with_completion :
  CompletionRequest -> Result (option ArxflixScript).
Variable exn_text : Exn -> str.

Let request := openrouter_request SYSTEM_PROMPT SYSTEM_PROMPT_NO_LINK
                 SCRIPGENETOR_MODEL.
Let run_openrouter :=
      _process_script_openrouter SYSTEM_PROMPT SYSTEM_PROMPT_NO_LINK
        OPENROUTER_API_KEY SCRIPGENETOR_MODEL create_with_completion exn_text.
Let run :=
      process_script SYSTEM_PROMPT SYSTEM_PROMPT_NO_LINK
        OPENROUTER_API_KEY SCRIPGENETOR_MODEL create_with_completion exn_text.

(** C9: with [from_pdf] set, the outcome no longer depends on the
    identifier passed in; the openrouter path runs on the document as
    given and on the sentinel: with a key in the environment, the backend
    is called with the request that carries the raw text after the fixed
    sentence and the sentinel, the sentinel prompt, and a schema whose
    validator reports no identifier violation for any candidate, and the
    outcome is what that call gives. *)
Theorem from_pdf_skips_links_and_uses_sentinel
        (method paper_markdown paper_id : str) :
  (forall other, run method paper_markdown paper_id true
                 = run method paper_markdown other true)
  /\ run (py "openrouter") paper_markdown paper_id true
     = run_openrouter paper_markdown sentinel
  /\ run (py "openrouter") paper_markdown paper_id true
     = match OPENROUTER_API_KEY with
       | None | Some [] =>
           Raise (ValueError
                    [py "You need to set the OPENROUTER_API_KEY environment variable."])
       | Some (_ :: _) =>
           match create_with_completion
                   (mkRequest
                      (mode (request paper_markdown sentinel))
                      (model (request paper_markdown sentinel))
                      SYSTEM_PROMPT_NO_LINK
                      (py "Here is the paper I want you to generate a script from, its paper_id is "
                       ++ py "paper_id" ++ py " : " ++ paper_markdown)
                      (validate_script_structure (py "paper_id"))
                      (1 # 10)%Q 2%Z 8000%Z)
           with
           | Raise e => Raise (generation_failed exn_text e)
           | Return None =>
               Raise (generation_failed exn_text
                        (ValueError [py "Empty response received from model"]))
           | Return (Some response) => Return (reconstruct_script response)
           end
       end
  /\ user_content (request paper_markdown sentinel)
     = py "Here is the paper I want you to generate a script from, its paper_id is "
       ++ py "paper_id" ++ py " : " ++ paper_markdown
  /\ system_content (request paper_markdown sentinel) = SYSTEM_PROMPT_NO_LINK
  /\ (forall candidate errors expected,
         response_model (request paper_markdown sentinel) candidate
         = Raise (ValueError errors) ->
         ~ In (msg_paper_id expected) errors).
Proof.
  repeat split; try reflexivity.
  intros candidate errors expected Hv Hin.
  cbn [request openrouter_request response_model] in Hv.
  unfold generate_model_with_context_check in Hv.
  rewrite match_outcome in Hv by now left. cbv zeta in Hv.
  destruct (sorted position false (components candidate));
    [discriminate Hv|].
  rewrite finish_outcome in Hv.
  destruct (_ ++ type_errors _) eqn:El in Hv; [discriminate Hv|].
  injection Hv as <-. rewrite <- El, <- !app_assoc in Hin.
  now apply ordering_messages with (expected := expected) in Hin.
Qed.
End PipelineFacts.

(** ** Single-pass substitution *)

Lemma re_sub_skip (keys : list str) (d : dict) (n : nat) (text : str) :
  re_sub keys d n text = re_sub keys d 0 (skipn n text).
Proof.
  revert n; induction text as [|c rest IH]; intros [|n]; try reflexivity.
  cbn [re_sub skipn]. apply IH.
Qed.

Lemma re_sub_match (keys : list str) (d : dict) (k text : str) :
  k <> [] ->
  find (fun k => starts_with k text) keys = Some k ->
  re_sub keys d 0 text
  = dict_get d k k ++ re_sub keys d 0 (skipn (length k) text).
Proof.
  intros Hk Hf. destruct text as [|c rest].
  - apply find_some in Hf as [_ Hf]. destruct k; [contradiction|discriminate].
  - cbn [re_sub]. rewrite Hf, re_sub_skip.
    destruct k as [|x k]; [contradiction|].
    replace (length (x :: k) - 1) with (length k) by (simpl; lia).
    reflexivity.
Qed.

Lemma re_sub_nomatch (keys : list str) (d : dict) (c : ascii) (rest : str) :
  find (fun k => starts_with k (c :: rest)) keys = None ->
  re_sub keys d 0 (c :: rest) = c :: re_sub keys d 0 rest.
Proof. intros Hf. cbn [re_sub]. now rewrite Hf. Qed.

Lemma find_none_iff {A : Type} (p : A -> bool) (l : list A) :
  (forall x, In x l -> p x = false) -> find p l = None.
Proof.
  induction l as [|a l IH]; intros H; [reflexivity|]. simpl.
  rewrite (H a) by now left. apply IH. intros x Hx. apply H. now right.
Qed.

Lemma starts_with_same_length (a b s : str) :
  starts_with a s = true -> starts_with b s = true ->
  length a = length b -> a = b.
Proof.
  intros Ha Hb Hl.
  apply starts_with_inv in Ha as [ra Ha].
  apply starts_with_inv in Hb as [rb Hb].
  rewrite Ha in Hb. revert b Hl Hb. clear Ha.
  induction a as [|x a IH]; intros [|y b] Hl Hb; try discriminate; [easy|].
  injection Hl as Hl. injection Hb as -> Hb. f_equal. now apply IH.
Qed.

(** *** Longest first *)

Section LongestFirst.
Variable A : Type.
Variable key : A -> Z.

Lemma insert_sorted_descending (x : A) (l : list A) :
  descending key l -> descending key (insert_sorted key true x l).
Proof.
  induction l as [|a l IH]; intros Hl; simpl.
  - repeat constructor.
  - apply StronglySorted_inv in Hl as [Hl Ha].
    unfold goes_before. destruct (key a <=? key x)%Z eqn:E.
    + apply Z.leb_le in E. constructor.
      * now constructor.
      * constructor; [exact E|].
        eapply Forall_impl; [|exact Ha]. intros z Hz. cbv beta in *. lia.
    + apply Z.leb_gt in E. constructor; [now apply IH|].
      eapply Permutation_Forall; [apply insert_sorted_perm|].
      constructor; [lia|exact Ha].
Qed.

Lemma sorted_descending (l : list A) : descending key (sorted key true l).
Proof.
  induction l as [|x l IH]; simpl; [constructor|].
  now apply insert_sorted_descending.
Qed.

(** The first element of a descending key list that passes a test has the
    greatest key among those that pass. *)
Lemma find_descending (p : A -> bool) (l : list A) (k k' : A) :
  descending key l -> find p l = Some k -> In k' l -> p k' = true ->
  (key k' <= key k)%Z.
Proof.
  induction l as [|a l IH]; intros Hl Hf Hin Hp; [easy|].
  apply StronglySorted_inv in Hl as [Hl Ha]. simpl in Hf.
  destruct (p a) eqn:Ea.
  - injection Hf as <-. destruct Hin as [<-|Hin]; [lia|].
    rewrite Forall_forall in Ha. now apply Ha.
  - destruct Hin as [<-|Hin]; [congruence|]. now apply IH.
Qed.
End LongestFirst.

Lemma sorted_keys_In (dict_list : list dict) (k : str) :
  In k (sorted_keys dict_list) <-> In k (map fst (combined_dict dict_list)).
Proof. apply sorted_In. Qed.

Lemma combined_key_nonempty (dict_list : list dict) (k : str) :
  In k (map fst (combined_dict dict_list)) -> k <> [].
Proof.
  intros H. apply in_map_iff in H as ([k' v] & <- & H).
  apply filter_In in H as [_ H]. unfold valid_key in H. cbn [fst] in *.
  now destruct k'.
Qed.

Lemma replace_keys_nonempty (text : str) (dict_list : list dict) (k : str) :
  In k (map fst (combined_dict dict_list)) ->
  replace_keys_with_values text dict_list
  = re_sub (sorted_keys dict_list) (combined_dict dict_list) 0 text.
Proof.
  unfold replace_keys_with_values.
  now destruct (combined_dict dict_list).
Qed.

(** The scan position sits at the start of an occurrence of a key and no
    longer key matches there: that occurrence is replaced. *)
Lemma re_sub_longest (dict_list : list dict) (long rest : str) :
  In long (map fst (combined_dict dict_list)) ->
  (forall k, In k (map fst (combined_dict dict_list)) ->
             starts_with k (long ++ rest) = true ->
             (length k <= length long)%nat) ->
  re_sub (sorted_keys dict_list) (combined_dict dict_list) 0 (long ++ rest)
  = dict_get (combined_dict dict_list) long long
    ++ re_sub (sorted_keys dict_list) (combined_dict dict_list) 0 rest.
Proof.
  intros Hin Hmax.
  destruct (find (fun k => starts_with k (long ++ rest))
                 (sorted_keys dict_list)) as [k|] eqn:Hf.
  - assert (Hk := Hf). apply find_some in Hk as [Hk Hp].
    assert (E : k = long).
    { apply starts_with_same_length with (s := long ++ rest);
        [exact Hp | apply starts_with_app |].
      apply Nat.le_antisymm.
      - apply Hmax; [now apply sorted_keys_In|exact Hp].
      - assert (H := @find_descending str str_len _ _ k long
                       (@sorted_descending str str_len _) Hf).
        unfold str_len in H. apply Nat2Z.inj_le, H.
        + now apply sorted_keys_In.
        + apply starts_with_app. }
    subst k.
    rewrite (re_sub_match _ _ _ _ (combined_key_nonempty _ _ Hin) Hf).
    now rewrite skipn_app, skipn_all, Nat.sub_diag.
  - exfalso. apply find_none with (x := long) in Hf.
    + now rewrite starts_with_app in Hf.
    + now apply sorted_keys_In.
Qed.

(** *** Merging dictionaries *)

Lemma dict_set_entries (d : dict) (k v : str) (kv : str * str) :
  In kv (dict_set d k v) -> In kv d \/ kv = (k, v).
Proof.
  induction d as [|[k' v'] d IH]; simpl.
  - intros [<-|[]]. now right.
  - destruct (str_eqb k' k) eqn:E.
    + apply str_eqb_eq in E. subst k'. intros [<-|H]; [now right|].
      left. now right.
    + intros [<-|H]; [left; now left|].
      destruct (IH H) as [H'|H']; [left; now right|now right].
Qed.

Lemma dict_set_keys (d : dict) (k v k' : str) :
  In k' (map fst d) \/ k' = k -> In k' (map fst (dict_set d k v)).
Proof.
  induction d as [|[k0 v0] d IH]; simpl.
  - intros [[]| ->]. now left.
  - destruct (str_eqb k0 k) eqn:E; simpl.
    + apply str_eqb_eq in E. subst k0. intros [[H|H]|H]; auto.
    + intros [[H|H]|H]; auto.
Qed.

Lemma dict_update_entries (d other : dict) (kv : str * str) :
  In kv (dict_update d other) -> In kv d \/ In kv other.
Proof.
  unfold dict_update. revert d.
  induction other as [|[k v] other IH]; intros d; simpl; [now left|].
  intros H. apply IH in H as [H|H]; [|right; now right].
  apply dict_set_entries in H as [H|H]; [now left|]. right. now left.
Qed.

Lemma dict_update_keys (d other : dict) (k : str) :
  In k (map fst d) \/ In k (map fst other) ->
  In k (map fst (dict_update d other)).
Proof.
  unfold dict_update. revert d.
  induction other as [|[k0 v0] other IH]; intros d; simpl.
  - now intros [H|[]].
  - intros H. apply IH.
    destruct H as [H|[H|H]]; [left|left|now right];
      apply dict_set_keys; auto.
Qed.

Lemma fold_update_entries (dl : list dict) (d : dict) (kv : str * str) :
  In kv (fold_left dict_update dl d) ->
  In kv d \/ exists o, In o dl /\ In kv o.
Proof.
  revert d. induction dl as [|o dl IH]; intros d; simpl; [now left|].
  intros H. apply IH in H as [H|(o' & Ho & H)].
  - apply dict_update_entries in H as [H|H]; [now left|].
    right. exists o. split; [now left|exact H].
  - right. exists o'. split; [now right|exact H].
Qed.

Lemma fold_update_keys (dl : list dict) (d : dict) (k : str) :
  In k (map fst d) \/ (exists o, In o dl /\ In k (map fst o)) ->
  In k (map fst (fold_left dict_update dl d)).
Proof.
  revert d. induction dl as [|o dl IH]; intros d; simpl.
  - now intros [H|(o & [] & _)].
  - intros H. apply IH.
    destruct H as [H|(o' & [<-|Ho] & H)].
    + left. apply dict_update_keys. now left.
    + left. apply dict_update_keys. now right.
    + right. now exists o'.
Qed.

Lemma dict_get_entry (d : dict) (k default : str) :
  In k (map fst d) -> In (k, dict_get d k default) d.
Proof.
  induction d as [|[k' v'] d IH]; simpl; [easy|].
  destruct (str_eqb k' k) eqn:E.
  - apply str_eqb_eq in E. subst k'. intros _. now left.
  - intros [H|H]; [apply str_eqb_neq in E; contradiction|].
    right. now apply IH.
Qed.

Lemma combined_entries (dl : list dict) (kv : str * str) :
  In kv (combined_dict dl) ->
  valid_key kv = true /\ exists o, In o dl /\ In kv o.
Proof.
  unfold combined_dict. intros H. apply filter_In in H as [H Hv].
  split; [exact Hv|].
  apply fold_update_entries in H as [[]|H]. exact H.
Qed.

Lemma combined_keys (dl : list dict) (o : dict) (kv : str * str) :
  In o dl -> In kv o -> valid_key kv = true ->
  In (fst kv) (map fst (combined_dict dl)).
Proof.
  intros Ho Hkv Hv. unfold combined_dict.
  assert (H : In (fst kv) (map fst (fold_left dict_update dl []))).
  { apply fold_update_keys. right. exists o. split; [exact Ho|].
    now apply in_map. }
  apply in_map_iff in H as ([k v] & E & H). cbn [fst] in E.
  apply in_map_iff. exists (k, v). split; [exact E|].
  apply filter_In. split; [exact H|].
  unfold valid_key in *. cbn [fst] in *. now rewrite E.
Qed.

Lemma unmatched_inv (keys : list str) (c : ascii) (before tail : str) :
  unmatched keys (c :: before) tail = true ->
  find (fun k => starts_with k ((c :: before) ++ tail)) keys = None
  /\ unmatched keys before tail = true.
Proof.
  cbn [unmatched]. intros H. apply andb_prop in H as [H1 H2].
  split; [|exact H2]. apply find_none_iff. intros k Hk.
  apply negb_true_iff in H1.
  destruct (starts_with k ((c :: before) ++ tail)) eqn:E; [|reflexivity].
  rewrite <- H1. symmetry. apply existsb_exists. now exists k.
Qed.

Lemma unmatched_sorted (dl : list dict) (before tail : str) :
  unmatched (map fst (combined_dict dl)) before tail = true ->
  unmatched (sorted_keys dl) before tail = true.
Proof.
  induction before as [|c before IH]; [easy|]. cbn [unmatched].
  intros H. apply andb_prop in H as [H1 H2]. rewrite (IH H2), andb_true_r.
  apply negb_true_iff in H1. apply negb_true_iff.
  destruct (existsb _ (sorted_keys dl)) eqn:E; [|reflexivity].
  apply existsb_exists in E as (k & Hk & Hs). rewrite <- H1. symmetry.
  apply existsb_exists. exists k. split; [|exact Hs].
  now apply sorted_keys_In.
Qed.

(** C6 as stated fails: with keys aa and aab, the second occurs in aaab at
    index 1, but the scan replaces the occurrence of aa at index 0, which
    covers the first character of that occurrence, and the replacement of
    aab appears nowhere in the result. *)
Lemma shorter_key_clobbers_longer_key :
  ~ (forall (text : str) (dict_list : list dict) (short long : str),
        In short (map fst (combined_dict dict_list)) ->
        In long (map fst (combined_dict dict_list)) ->
        contains short long = true -> short <> long ->
        contains short text = true ->
        forall before after,
          text = before ++ long ++ after ->
          exists before' after',
            replace_keys_with_values text dict_list
            = before' ++ dict_get (combined_dict dict_list) long long
              ++ after').
Proof.
  intros H.
  destruct (H (py "aaab") overlapping_entries (py "aa") (py "aab"))
    with (before := py "a") (after := @nil ascii)
    as (b' & a' & E); try reflexivity.
  - now left.
  - right. now left.
  - discriminate.
  - assert (Hin : In "Y"%char (replace_keys_with_values (py "aaab")
                                 overlapping_entries)).
    { rewrite E. apply in_or_app. right. now left. }
    vm_compute in Hin. intuition discriminate.
Qed.

(** C6, amended: where the scan stands at the start of an occurrence of a
    key, no key having matched at an earlier position, and no longer key
    matches there, that occurrence is replaced by the key's value whole,
    whatever shorter keys are prefixes of it, and the scan resumes after
    it; and when every key of the mapping is empty the text is returned as
    it is. *)
Theorem longest_key_wins_at_scan_position (dict_list : list dict) :
  (forall before long rest : str,
      In long (map fst (combined_dict dict_list)) ->
      longest_here (map fst (combined_dict dict_list)) long (long ++ rest)
      = true ->
      unmatched (map fst (combined_dict dict_list)) before (long ++ rest)
      = true ->
      replace_keys_with_values (before ++ long ++ rest) dict_list
      = before ++ dict_get (combined_dict dict_list) long long
        ++ replace_keys_with_values rest dict_list)
  /\ ((forall d kv, In d dict_list -> In kv d -> fst kv = []) ->
      forall text, replace_keys_with_values text dict_list = text).
Proof.
  split.
  - intros before long rest Hin Hmax Hun.
    rewrite !(replace_keys_nonempty _ _ _ Hin).
    apply unmatched_sorted in Hun.
    induction before as [|c before IH].
    + cbn [app]. apply re_sub_longest; [exact Hin|].
      intros k Hk Hs. unfold longest_here in Hmax.
      rewrite forallb_forall in Hmax. specialize (Hmax k Hk).
      rewrite Hs in Hmax. now apply Nat.leb_le in Hmax.
    + apply unmatched_inv in Hun as [Hf Hun].
      change ((c :: before) ++ long ++ rest)
        with (c :: before ++ long ++ rest) in *.
      rewrite (re_sub_nomatch _ _ _ _ Hf), (IH Hun). reflexivity.
  - intros Hempty text. unfold replace_keys_with_values.
    destruct (combined_dict dict_list) as [|kv rest] eqn:E; [reflexivity|].
    assert (H : In kv (combined_dict dict_list)) by (rewrite E; now left).
    apply combined_entries in H as (Hv & o & Ho & Hkv).
    unfold valid_key in Hv. now rewrite (Hempty o kv Ho Hkv) in Hv.
Qed.

Lemma longest_key_wins_at_scan_position_witness :
  replace_keys_with_values
    (py "see " ++ py "![](a.png)![](b.png)" ++ py " and ![](a.png)")
    nested_entries
  = py "see " ++ py "<long>" ++ py " and <short>"
  /\ replace_keys_with_values (py "![](a.png)") [[(@nil ascii, py "x")]]
     = py "![](a.png)".
Proof.
  destruct (longest_key_wins_at_scan_position nested_entries) as [H _].
  destruct (longest_key_wins_at_scan_position [[(@nil ascii, py "x")]])
    as [_ H'].
  split.
  - rewrite H; [reflexivity | right; now left | reflexivity | reflexivity].
  - apply H'. intros d kv [<-|[]] [<-|[]]. reflexivity.
Defined.

(** ** Link normalizer *)

(** *** Stripping, searching, replacing *)

Lemma lstrip_keeps (c : ascii) (s : str) :
  In c s -> isspace c = false -> In c (lstrip s).
Proof.
  induction s as [|a s IH]; simpl; [easy|]. intros [<-|H] Hc.
  - rewrite Hc. now left.
  - destruct (isspace a); [now apply IH|now right].
Qed.

Lemma strip_keeps (c : ascii) (s : str) :
  In c s -> isspace c = false -> In c (strip s).
Proof.
  intros Hin Hc. unfold strip, rstrip.
  apply -> in_rev. apply lstrip_keeps; [|exact Hc].
  apply -> in_rev. now apply lstrip_keeps.
Qed.

Lemma truthy_strip (c : ascii) (s : str) :
  In c s -> isspace c = false -> truthy (strip s) = true.
Proof.
  intros Hin Hc. pose proof (strip_keeps _ _ Hin Hc) as H.
  now destruct (strip s).
Qed.

Lemma contains_marker_bang (line : str) :
  contains marker line = true -> In "!"%char line.
Proof.
  intros H. apply contains_inv in H as (a & b & ->).
  apply in_or_app. right. now left.
Qed.

Lemma has_image_marker (line : str) : has_image line = contains marker line.
Proof.
  unfold has_image. destruct (contains marker line) eqn:E;
    [|apply andb_false_r].
  rewrite (truthy_strip "!"%char line); [reflexivity| |reflexivity].
  now apply contains_marker_bang.
Qed.

Lemma starts_with_before (p s t : str) (x : ascii) :
  starts_with p (s ++ x :: t) = true -> ~ In x p -> starts_with p s = true.
Proof.
  revert s; induction p as [|a p IH]; intros s H Hx; [reflexivity|].
  destruct s as [|b s]; simpl in H |- *.
  - apply andb_prop in H as [H _]. apply Ascii.eqb_eq in H.
    exfalso. apply Hx. now left.
  - apply andb_prop in H as [-> H]. apply IH; [exact H|].
    intros Hin. apply Hx. now right.
Qed.

Lemma starts_with_length (p s : str) :
  starts_with p s = true -> length p <= length s.
Proof.
  intros H. apply starts_with_inv in H as [r ->]. rewrite length_app. lia.
Qed.

Lemma contains_cons (p : str) (c : ascii) (s : str) :
  contains p (c :: s) = starts_with p (c :: s) || contains p s.
Proof. reflexivity. Qed.

Lemma contains_before_last (p s : str) (x : ascii) :
  p <> [] -> ~ In x p ->
  contains p (s ++ [x]) = true -> contains p s = true.
Proof.
  intros Hp Hx. induction s as [|c s IH]; intros H.
  - exfalso. destruct p as [|a p]; [contradiction|].
    simpl in H. rewrite !orb_false_r in H.
    apply andb_prop in H as [H _]. apply Ascii.eqb_eq in H.
    apply Hx. now left.
  - change ((c :: s) ++ [x]) with (c :: s ++ [x]) in H.
    rewrite contains_cons in H |- *. apply orb_prop in H as [H|H].
    + change (c :: s ++ [x]) with ((c :: s) ++ x :: []) in H.
      now rewrite (starts_with_before _ _ _ _ H Hx).
    + rewrite (IH H). apply orb_true_r.
Qed.

Lemma contains_inside (p k s : str) :
  contains p k = true -> contains k s = true -> contains p s = true.
Proof.
  intros Hp Hk.
  apply contains_inv in Hp as (a & b & ->).
  apply contains_inv in Hk as (a' & b' & ->).
  replace (a' ++ (a ++ p ++ b) ++ b') with ((a' ++ a) ++ p ++ (b ++ b'))
    by now rewrite <- !app_assoc.
  apply contains_intro.
Qed.

Lemma replace_go_skip (old new : str) (n : nat) (s : str) :
  replace_go old new n s = replace_go old new 0 (skipn n s).
Proof.
  revert n; induction s as [|c rest IH]; intros [|n]; try reflexivity.
  cbn [replace_go skipn]. apply IH.
Qed.

Lemma replace_go_match (old new rest : str) :
  old <> [] ->
  replace_go old new 0 (old ++ rest) = new ++ replace_go old new 0 rest.
Proof.
  intros Ho. destruct old as [|x old]; [contradiction|].
  change ((x :: old) ++ rest) with (x :: old ++ rest).
  cbn [replace_go].
  change (x :: old ++ rest) with ((x :: old) ++ rest).
  rewrite starts_with_app, replace_go_skip.
  replace (length (x :: old) - 1) with (length old) by (simpl; lia).
  now rewrite skipn_app, skipn_all, Nat.sub_diag.
Qed.

Lemma replace_go_absent (old new s : str) :
  contains old s = false -> replace_go old new 0 s = s.
Proof.
  induction s as [|c s IH]; [reflexivity|].
  rewrite contains_cons. intros H. apply orb_false_elim in H as [Hs Hc].
  cbn [replace_go]. now rewrite Hs, (IH Hc).
Qed.

Lemma replace_rparen (s : str) : replace (py ")") [] s = filter not_rparen s.
Proof.
  change (replace (py ")") [] s) with (replace_go [")"%char] [] 0 s).
  induction s as [|c s IH]; [reflexivity|].
  cbn [replace_go starts_with filter length Nat.sub app]. unfold not_rparen at 1.
  rewrite andb_true_r. destruct (Ascii.eqb ")"%char c); cbn [negb]; now rewrite IH.
Qed.

Lemma replace_In (old new s : str) (c : ascii) :
  In c (replace old new s) -> In c new \/ In c s.
Proof.
  destruct old as [|x old]; cbn [replace].
  - intros H. apply in_app_or in H as [H|H]; [now left|].
    apply in_flat_map in H as (y & Hy & [<-|H]); [now right|now left].
  - generalize 0 as n. induction s as [|y s IH]; intros n H; [easy|].
    cbn [replace_go] in H. destruct n as [|n].
    + destruct (starts_with (x :: old) (y :: s)).
      * apply in_app_or in H as [H|H]; [now left|].
        destruct (IH _ H); [now left|right; now right].
      * destruct H as [<-|H]; [right; now left|].
        destruct (IH _ H); [now left|right; now right].
    + destruct (IH _ H); [now left|right; now right].
Qed.

Lemma filter_skipn_length (p : ascii -> bool) (n : nat) (l : str) :
  length (filter p l) <= n + length (filter p (skipn n l)).
Proof.
  revert n; induction l as [|a l IH]; intros [|n]; cbn [skipn]; try lia.
  specialize (IH n). cbn [filter]. destruct (p a); cbn [length]; lia.
Qed.

(** Replacing never loses more kept characters than it brings. *)
Lemma replace_go_filter_length (p : ascii -> bool) (old new : str)
      (n : nat) (s : str) :
  old <> [] -> length old <= length (filter p new) ->
  length (filter p (skipn n s)) <= length (filter p (replace_go old new n s)).
Proof.
  intros Ho Hl. revert n; induction s as [|c s IH]; intros n.
  - now rewrite skipn_nil.
  - destruct n as [|n]; cbn [skipn replace_go]; [|apply IH].
    destruct (starts_with old (c :: s)).
    + rewrite filter_app, length_app.
      specialize (IH (length old - 1)).
      pose proof (filter_skipn_length p (length old - 1) s) as H.
      assert (length old <> 0) by (destruct old; [contradiction|discriminate]).
      cbn [filter]. destruct (p c); cbn [length]; lia.
    + specialize (IH 0). cbn [skipn] in IH. cbn [filter].
      destruct (p c); cbn [length]; lia.
Qed.

Lemma filter_twice (p : ascii -> bool) (l : str) :
  filter p (filter p l) = filter p l.
Proof.
  induction l as [|a l IH]; [reflexivity|]. cbn [filter].
  destruct (p a) eqn:E; [|exact IH]. cbn [filter]. now rewrite E, IH.
Qed.

(** *** One line *)

Lemma rewrap_shape (old new line : str) :
  rewrap old new line
  = marker ++ filter not_rparen (replace old new line) ++ py ")".
Proof. unfold rewrap. now rewrite replace_rparen. Qed.

Lemma rewrap_changes (old new line : str) :
  old <> [] -> length old <= length (filter not_rparen new) ->
  rewrap old new line <> line.
Proof.
  intros Ho Hl E. rewrite rewrap_shape in E.
  apply (f_equal (fun s => length (filter not_rparen s))) in E.
  rewrite !filter_app, filter_twice, !length_app in E.
  pose proof (replace_go_filter_length not_rparen old new 0 line Ho Hl) as H.
  cbn [skipn] in H.
  replace (replace old new line) with (replace_go old new 0 line) in E
    by now destruct old.
  change (length (filter not_rparen marker)) with 4 in E. lia.
Qed.

Lemma scoped_base_length (paper_id tail : str) :
  13 <= length (filter not_rparen (scoped_base paper_id ++ tail)).
Proof.
  unfold scoped_base. rewrite <- app_assoc, filter_app, length_app.
  change (length (filter not_rparen (py "https://arxiv.org/html/"))) with 23.
  lia.
Qed.

(** Every branch of [get_link] wraps the line it is given. *)
Lemma get_link_rewrap (line paper_id : str) :
  truthy (strip line) = true ->
  exists old new,
    get_link line paper_id = rewrap old new line
    /\ old <> [] /\ length old <= length (filter not_rparen new).
Proof.
  intros Hs. unfold get_link.
  assert (Hl : truthy line = true) by (destruct line; [discriminate Hs|easy]).
  rewrite Hs, Hl. cbn [negb orb].
  destruct (contains (py "ar5iv.labs.arxiv.org") line).
  { exists marker, (py "https://"). repeat split; [discriminate|].
    cbn. lia. }
  destruct (contains _ line).
  { exists marker, (scoped_base paper_id ++ py "/").
    repeat split; [discriminate|].
    pose proof (scoped_base_length paper_id (py "/")).
    change (length marker) with 4. lia. }
  destruct (contains _ line).
  { exists (py "![](arxiv.org"), (scoped_base paper_id).
    repeat split; [discriminate|].
    pose proof (scoped_base_length paper_id []) as H.
    rewrite app_nil_r in H. exact H. }
  exists marker, (scoped_base paper_id ++ py "/").
  repeat split; [discriminate|].
  pose proof (scoped_base_length paper_id (py "/")).
  change (length marker) with 4. lia.
Qed.

Lemma get_link_changes (line paper_id : str) :
  truthy (strip line) = true -> get_link line paper_id <> line.
Proof.
  intros Hs. destruct (get_link_rewrap line paper_id Hs)
    as (old & new & -> & Ho & Hl).
  now apply rewrap_changes.
Qed.

Lemma get_link_wrapped (line paper_id : str) :
  truthy (strip line) = true ->
  exists body,
    get_link line paper_id = marker ++ body ++ py ")" /\ ~ In ")"%char body.
Proof.
  intros Hs. destruct (get_link_rewrap line paper_id Hs)
    as (old & new & -> & _ & _).
  rewrite rewrap_shape. eexists. split; [reflexivity|].
  intros H. apply filter_In in H as [_ H]. discriminate H.
Qed.

Lemma get_link_truthy (line paper_id : str) :
  truthy (strip line) = true ->
  truthy (strip (get_link line paper_id)) = true.
Proof.
  intros Hs. destruct (get_link_wrapped line paper_id Hs) as (body & -> & _).
  apply truthy_strip with (c := "!"%char); [now left|reflexivity].
Qed.

Lemma get_link_no_newline (line paper_id : str) :
  no_newline line -> no_newline paper_id ->
  no_newline (get_link line paper_id).
Proof.
  intros Hline Hid. unfold no_newline, get_link, rewrap, scoped_base in *.
  destruct (_ || _); [exact Hline|].
  assert (Hw : forall old new,
             ~ In nl new ->
             ~ In nl (marker ++ replace (py ")") [] (replace old new line)
                        ++ py ")")).
  { intros old new Hnew H.
    apply in_app_or in H as [H|H];
      [cbn in H; intuition discriminate|].
    apply in_app_or in H as [H|H];
      [|cbn in H; intuition discriminate].
    apply replace_In in H as [[]|H].
    apply replace_In in H as [H|H]; contradiction. }
  assert (Hb : forall tail,
             ~ In nl tail ->
             ~ In nl ((py "https://arxiv.org/html/" ++ paper_id) ++ tail)).
  { intros tail Ht H. apply in_app_or in H as [H|H]; [|contradiction].
    apply in_app_or in H as [H|H]; [|contradiction].
    cbn in H. intuition discriminate. }
  assert (Hslash : ~ In nl (py "/")) by (cbn; intuition discriminate).
  destruct (contains _ line);
    [apply Hw; cbn; intuition discriminate|].
  destruct (contains _ line); [apply Hw, Hb, Hslash|].
  destruct (contains _ line); [|apply Hw, Hb, Hslash].
  apply Hw. intros H. apply (Hb []); [easy|]. now rewrite app_nil_r.
Qed.

Lemma link_entry_marker (paper_id line : str) :
  contains marker line = true ->
  link_entry paper_id line = [[(line, get_link line paper_id)]].
Proof.
  intros Hm. unfold link_entry.
  assert (Hs : truthy (strip line) = true).
  { apply truthy_strip with (c := "!"%char);
      [now apply contains_marker_bang|reflexivity]. }
  rewrite Hs, (get_link_truthy _ paper_id Hs). cbn [andb].
  assert (E : str_eqb line (get_link line paper_id) = false).
  { apply str_eqb_neq. intros E. symmetry in E.
    now apply get_link_changes in E. }
  now rewrite E.
Qed.

(** *** Lines of a document *)

Lemma split_nonempty (sep : ascii) (s : str) : split sep s <> [].
Proof.
  destruct s as [|c s]; simpl; [discriminate|].
  destruct (Ascii.eqb c sep); [discriminate|].
  destruct (split sep s); discriminate.
Qed.

Lemma split_line_no_sep (sep : ascii) (s l : str) :
  In l (split sep s) -> ~ In sep l.
Proof.
  revert l; induction s as [|c s IH]; intros l; simpl.
  - intros [<-|[]]. easy.
  - destruct (Ascii.eqb c sep) eqn:E.
    + intros [<-|H]; [easy|now apply IH].
    + destruct (split sep s) as [|l0 ls] eqn:Es.
      * intros [<-|[]] [H|[]]. subst. now rewrite Ascii.eqb_refl in E.
      * intros [<-|H].
        -- intros [H|H]; [subst; now rewrite Ascii.eqb_refl in E|].
           apply (IH l0); [now left|exact H].
        -- apply IH. now right.
Qed.

Lemma join_cons (sep : str) (l l' : str) (ls : list str) :
  join sep (l :: l' :: ls) = l ++ sep ++ join sep (l' :: ls).
Proof. reflexivity. Qed.

Lemma join_split (sep : ascii) (s : str) : join [sep] (split sep s) = s.
Proof.
  induction s as [|c s IH]; [reflexivity|]. simpl split.
  pose proof (split_nonempty sep s) as Hne.
  destruct (Ascii.eqb c sep) eqn:E.
  - apply Ascii.eqb_eq in E. subst c.
    destruct (split sep s) as [|l ls]; [contradiction|].
    rewrite join_cons, IH. reflexivity.
  - destruct (split sep s) as [|l ls]; [contradiction|].
    destruct ls as [|l' ls].
    + simpl in IH |- *. now rewrite IH.
    + rewrite join_cons in IH |- *. rewrite <- IH. reflexivity.
Qed.

Lemma starts_with_contains (p s : str) :
  starts_with p s = true -> contains p s = true.
Proof. intros H. destruct s; simpl in *; now rewrite H. Qed.

Lemma contains_marker_wrapped (body tail : str) :
  contains marker (marker ++ body ++ tail) = true.
Proof. apply (contains_intro [] marker (body ++ tail)). Qed.

(** *** The substitution, line by line *)

Section AdjustLinks.
Variable text_md paper_id : str.

Let lines := split nl text_md.
Let links := flat_map (link_entry paper_id) (filter has_image lines).
Let D := combined_dict links.
Let K := sorted_keys links.

Lemma links_entry (o : dict) (kv : str * str) :
  In o links -> In kv o ->
  exists line, In line lines /\ contains marker line = true
               /\ kv = (line, get_link line paper_id).
Proof.
  intros Ho Hkv. apply in_flat_map in Ho as (line & Hl & Ho).
  apply filter_In in Hl as [Hl Hi]. rewrite has_image_marker in Hi.
  rewrite (link_entry_marker _ _ Hi) in Ho. destruct Ho as [<-|[]].
  destruct Hkv as [<-|[]]. now exists line.
Qed.

Lemma line_is_key (line : str) :
  In line lines -> contains marker line = true -> In line (map fst D).
Proof.
  intros Hl Hm.
  apply (combined_keys links [(line, get_link line paper_id)]
                       (line, get_link line paper_id)).
  - apply in_flat_map. exists line. split.
    + apply filter_In. split; [exact Hl|]. now rewrite has_image_marker.
    + rewrite (link_entry_marker _ _ Hm). now left.
  - now left.
  - unfold valid_key. cbn [fst].
    pose proof (contains_marker_bang _ Hm) as Hb.
    rewrite (truthy_strip "!"%char line Hb eq_refl).
    now destruct line.
Qed.

Lemma key_facts (k : str) :
  In k (map fst D) ->
  In k lines /\ contains marker k = true
  /\ dict_get D k k = get_link k paper_id.
Proof.
  intros Hk. apply (dict_get_entry D k k) in Hk.
  apply combined_entries in Hk as (_ & o & Ho & Hkv).
  apply links_entry in Hkv as (line & Hl & Hm & E); [|exact Ho].
  injection E as E1 E2. subst line. now rewrite E2.
Qed.

Lemma key_no_newline (k : str) : In k (map fst D) -> no_newline k.
Proof.
  intros Hk. apply key_facts in Hk as (Hl & _ & _).
  now apply split_line_no_sep in Hl.
Qed.

Lemma starts_with_line (k l rest : str) :
  no_newline k ->
  rest = [] \/ (exists r, rest = nl :: r) ->
  starts_with k (l ++ rest) = true -> starts_with k l = true.
Proof.
  intros Hk [->|[r ->]] H.
  - now rewrite app_nil_r in H.
  - now apply starts_with_before in H.
Qed.

Lemma matched_line (line rest : str) :
  In line (map fst D) ->
  rest = [] \/ (exists r, rest = nl :: r) ->
  re_sub K D 0 (line ++ rest) = get_link line paper_id ++ re_sub K D 0 rest.
Proof.
  intros Hin Ht.
  destruct (key_facts _ Hin) as (_ & _ & <-).
  apply re_sub_longest; [exact Hin|].
  intros k Hk Hs. apply starts_with_length.
  apply starts_with_line with (rest := rest); [|exact Ht|exact Hs].
  now apply key_no_newline.
Qed.

Lemma unmatched_line (l rest : str) :
  contains marker l = false ->
  rest = [] \/ (exists r, rest = nl :: r) ->
  re_sub K D 0 (l ++ rest) = l ++ re_sub K D 0 rest.
Proof.
  intros Hm Ht. induction l as [|c l IH]; [reflexivity|].
  rewrite contains_cons in Hm. apply orb_false_elim in Hm as [Hs Hm].
  change ((c :: l) ++ rest) with (c :: l ++ rest).
  rewrite re_sub_nomatch, (IH Hm); [reflexivity|].
  apply find_none_iff. intros k Hk.
  apply sorted_keys_In in Hk.
  destruct (starts_with k (c :: l ++ rest)) eqn:E; [|reflexivity].
  exfalso.
  change (c :: l ++ rest) with ((c :: l) ++ rest) in E.
  apply starts_with_line in E; [|now apply key_no_newline|exact Ht].
  apply starts_with_contains in E.
  destruct (key_facts _ Hk) as (_ & Hkm & _).
  pose proof (contains_inside _ _ _ Hkm E) as H.
  rewrite contains_cons, Hs, Hm in H. discriminate H.
Qed.

Lemma newline_step (r : str) :
  re_sub K D 0 (nl :: r) = nl :: re_sub K D 0 r.
Proof.
  apply re_sub_nomatch, find_none_iff. intros k Hk.
  apply sorted_keys_In in Hk.
  pose proof (key_no_newline _ Hk) as Hn.
  pose proof (combined_key_nonempty _ _ Hk) as Hne.
  destruct k as [|x k]; [contradiction|]. simpl.
  destruct (Ascii.eqb x nl) eqn:E; [|reflexivity].
  apply Ascii.eqb_eq in E. exfalso. apply Hn. now left.
Qed.

Lemma line_step (l rest : str) :
  In l lines ->
  rest = [] \/ (exists r, rest = nl :: r) ->
  re_sub K D 0 (l ++ rest) = normalize_line paper_id l ++ re_sub K D 0 rest.
Proof.
  intros Hl Ht. unfold normalize_line.
  destruct (contains marker l) eqn:Hm.
  - apply matched_line; [|exact Ht]. now apply line_is_key.
  - now apply unmatched_line.
Qed.

Lemma re_sub_lines (ls : list str) :
  ls <> [] -> (forall l, In l ls -> In l lines) ->
  re_sub K D 0 (join [nl] ls)
  = join [nl] (map (normalize_line paper_id) ls).
Proof.
  induction ls as [|l ls IH]; [easy|]. intros _ Hin.
  destruct ls as [|l' ls].
  - cbn [join map]. rewrite <- (app_nil_r l) at 1.
    rewrite line_step; [apply app_nil_r|now apply Hin; left|now left].
  - cbn [map]. rewrite !join_cons. cbn [app].
    rewrite line_step;
      [|now apply Hin; left|right; now eexists].
    rewrite newline_step. cbn [map] in IH. rewrite IH; [reflexivity|easy|].
    intros x Hx. apply Hin. now right.
Qed.

(** The normalizer rewrites the document line by line: a line with the
    marker becomes what [get_link] makes of it, any other line stays. *)
Lemma adjust_links_linewise :
  adjust_links text_md paper_id
  = join [nl] (map (normalize_line paper_id) (split nl text_md)).
Proof.
  unfold adjust_links, replace_keys_with_values.
  fold lines. fold links. fold D. fold K.
  destruct D as [|kv rest] eqn:E.
  - rewrite map_ext_in with (g := fun l => l).
    + rewrite map_id. symmetry. apply join_split.
    + intros l Hl. unfold normalize_line.
      destruct (contains marker l) eqn:Hm; [|reflexivity].
      pose proof (line_is_key _ Hl Hm) as H. rewrite E in H. destruct H.
  - rewrite <- E. rewrite <- (join_split nl text_md) at 1.
    apply re_sub_lines; [apply split_nonempty|easy].
Qed.
End AdjustLinks.

Lemma normalize_line_no_newline (paper_id line : str) :
  no_newline paper_id -> no_newline line ->
  no_newline (normalize_line paper_id line).
Proof.
  intros Hid Hl. unfold normalize_line.
  destruct (contains marker line); [|exact Hl].
  now apply get_link_no_newline.
Qed.

Lemma adjust_links_lines (text_md paper_id : str) :
  no_newline paper_id ->
  split nl (adjust_links text_md paper_id)
  = map (normalize_line paper_id) (split nl text_md).
Proof.
  intros Hid. rewrite adjust_links_linewise. apply split_join.
  - pose proof (split_nonempty nl text_md).
    destruct (split nl text_md); [contradiction|discriminate].
  - intros l Hl. apply in_map_iff in Hl as (l0 & <- & Hl0).
    apply normalize_line_no_newline; [exact Hid|].
    now apply split_line_no_sep in Hl0.
Qed.

(** *** Claims on the normalizer *)

Lemma filter_keeps_all (p : ascii -> bool) (l : str) :
  (forall x, In x l -> p x = true) -> filter p l = l.
Proof.
  induction l as [|a l IH]; intros H; [reflexivity|]. cbn [filter].
  rewrite (H a) by now left. f_equal. apply IH. intros x Hx. apply H.
  now right.
Qed.

Lemma not_rparen_keeps (l : str) :
  ~ In ")"%char l -> filter not_rparen l = l.
Proof.
  intros H. apply filter_keeps_all. intros x Hx. unfold not_rparen.
  destruct (Ascii.eqb ")"%char x) eqn:E; [|reflexivity].
  apply Ascii.eqb_eq in E. subst x. contradiction.
Qed.

(** A line that is one reference and nothing else, under the default
    rule. *)
Lemma bare_reference_default (paper_id ref : str) :
  ~ In ")"%char ref -> ~ In ")"%char paper_id ->
  contains marker ref = false ->
  contains (py "ar5iv.labs.arxiv.org") (marker ++ ref ++ py ")") = false ->
  contains (py "https:/arxiv.org/html/" ++ paper_id ++ py "/")
           (marker ++ ref ++ py ")") = false ->
  contains (py "(arxiv.org") (marker ++ ref ++ py ")") = false ->
  normalize_line paper_id (marker ++ ref ++ py ")")
  = marker ++ scoped_base paper_id ++ py "/" ++ ref ++ py ")".
Proof.
  intros Href Hid Hm H1 H2 H3. unfold normalize_line.
  rewrite contains_marker_wrapped. unfold get_link. rewrite H1, H2, H3.
  assert (Hs : truthy (strip (marker ++ ref ++ py ")")) = true)
    by (apply truthy_strip with (c := "!"%char); [now left|reflexivity]).
  rewrite Hs. change (truthy (marker ++ ref ++ py ")")) with true.
  cbn [negb orb]. rewrite rewrap_shape.
  change (replace marker (scoped_base paper_id ++ py "/")
                  (marker ++ ref ++ py ")"))
    with (replace_go marker (scoped_base paper_id ++ py "/") 0
                     (marker ++ ref ++ py ")")).
  rewrite replace_go_match by discriminate.
  rewrite replace_go_absent.
  - rewrite <- app_assoc, !filter_app.
    rewrite (not_rparen_keeps ref Href).
    rewrite (not_rparen_keeps (scoped_base paper_id)).
    + change (filter not_rparen (py "/")) with (py "/").
      change (filter not_rparen (py ")")) with (@nil ascii).
      now rewrite app_nil_r, <- !app_assoc.
    + unfold scoped_base. intros H. apply in_app_or in H as [H|H];
        [cbn in H; intuition discriminate|contradiction].
  - destruct (contains marker (ref ++ py ")")) eqn:E; [|reflexivity].
    apply contains_before_last in E; [congruence|discriminate|].
    cbn. intuition discriminate.
Qed.

(** C3 as stated fails, on the very line of the scenario: the second pass
    prefixes the scoped base path once more. *)
Lemma second_pass_rewrites_again :
  adjust_links (adjust_links bare_reference (py "X")) (py "X")
  <> adjust_links bare_reference (py "X").
Proof. vm_compute. discriminate. Qed.

(** C3, amended: a document no line of which contains the marker is
    returned as it is, so normalizing it twice equals normalizing it once;
    for an identifier without line break these are the only documents on
    which the second pass changes nothing; the line of the scenario becomes
    the scoped absolute form, which the second pass prefixes again. *)
Theorem idempotent_only_without_marker (d paper_id : str) :
  ((forall line, In line (split nl d) -> contains marker line = false) ->
   adjust_links d paper_id = d
   /\ adjust_links (adjust_links d paper_id) paper_id
      = adjust_links d paper_id)
  /\ (no_newline paper_id ->
      adjust_links (adjust_links d paper_id) paper_id
      = adjust_links d paper_id ->
      forall line, In line (split nl d) -> contains marker line = false)
  /\ adjust_links bare_reference (py "X")
     = py "![](https://arxiv.org/html/X/foo.png)"
  /\ adjust_links (py "![](https://arxiv.org/html/X/foo.png)") (py "X")
     = py "![](https://arxiv.org/html/X/https://arxiv.org/html/X/foo.png)".
Proof.
  split; [|split; [|split; reflexivity]].
  - intros Hfree.
    assert (E : adjust_links d paper_id = d).
    { rewrite adjust_links_linewise.
      rewrite map_ext_in with (g := fun l => l).
      - rewrite map_id. apply join_split.
      - intros l Hl. unfold normalize_line. now rewrite (Hfree l Hl). }
    now rewrite !E.
  - intros Hid Hidem line Hl.
    destruct (contains marker line) eqn:Hm; [exfalso|reflexivity].
    apply (f_equal (split nl)) in Hidem.
    rewrite !adjust_links_lines, map_map in Hidem by exact Hid.
    apply map_ext_in_iff with (a := line) in Hidem; [|exact Hl].
    unfold normalize_line at 2 3 in Hidem. rewrite Hm in Hidem.
    assert (Hs : truthy (strip line) = true)
      by (apply truthy_strip with (c := "!"%char);
          [now apply contains_marker_bang|reflexivity]).
    destruct (get_link_wrapped line paper_id Hs) as (body & Hg & _).
    unfold normalize_line in Hidem.
    rewrite Hg, contains_marker_wrapped, <- Hg in Hidem.
    apply get_link_changes in Hidem; [exact Hidem|].
    now apply get_link_truthy.
Qed.

Lemma idempotent_only_without_marker_witness :
  adjust_links (py "No figure here.") (py "X") = py "No figure here."
  /\ adjust_links (adjust_links (py "No figure here.") (py "X")) (py "X")
     = adjust_links (py "No figure here.") (py "X").
Proof.
  apply (proj1 (idempotent_only_without_marker (py "No figure here.")
                  (py "X"))).
  intros line [<-|[]]. reflexivity.
Defined.

(** C4 as stated fails: on a line with text around the reference the
    output opens with the marker, holds the text before the reference
    inside it and has lost that text's closing parenthesis. *)
Lemma surrounding_text_not_preserved :
  ~ (forall (text_md paper_id : str) (i : nat) (line : str),
        nth_error (split nl text_md) i = Some line ->
        contains marker line = true ->
        exists out,
          nth_error (split nl (adjust_links text_md paper_id)) i = Some out
          /\ surrounding_text_preserved line out).
Proof.
  intros H.
  destruct (H captioned_reference (py "X") 0 captioned_reference
              eq_refl eq_refl) as (out & Hout & Hkeep).
  vm_compute in Hout. injection Hout as <-.
  destruct (Hkeep (py "(see) ") (py "a.png") (py " end")) as [ref' E].
  - reflexivity.
  - cbn. intuition discriminate.
  - cbn in E. discriminate E.
Qed.

Lemma marker_not_straddling (before rest : str) :
  before <> [] -> contains marker before = false ->
  starts_with marker (before ++ marker ++ rest) = false.
Proof.
  intros Hne Hm.
  destruct (starts_with marker (before ++ marker ++ rest)) eqn:E;
    [exfalso|reflexivity].
  apply starts_with_inv in E as [r E].
  destruct before as [|a [|b [|c [|d before]]]]; [contradiction| | | |];
    try (cbn in E; discriminate E).
  change (marker ++ r)
    with ("!"%char :: "["%char :: "]"%char :: "("%char :: r) in E.
  change ((a :: b :: c :: d :: before) ++ marker ++ rest)
    with (a :: b :: c :: d :: before ++ marker ++ rest) in E.
  injection E as -> -> -> -> _.
  rewrite contains_cons in Hm. apply orb_false_elim in Hm as [Hs _].
  change ("!"%char :: "["%char :: "]"%char :: "("%char :: before)
    with (marker ++ before) in Hs.
  now rewrite starts_with_app in Hs.
Qed.

(** The first marker of a line: what stands before it is copied. *)
Lemma replace_go_before (new before rest : str) :
  contains marker before = false ->
  replace_go marker new 0 (before ++ marker ++ rest)
  = before ++ new ++ replace_go marker new 0 rest.
Proof.
  induction before as [|c before IH]; intros Hm.
  - cbn [app]. apply replace_go_match. discriminate.
  - pose proof (marker_not_straddling (c :: before) rest
                  ltac:(discriminate) Hm) as Hs.
    rewrite contains_cons in Hm. apply orb_false_elim in Hm as [_ Hm].
    change ((c :: before) ++ marker ++ rest)
      with (c :: before ++ marker ++ rest) in *.
    cbn [replace_go]. rewrite Hs, (IH Hm). reflexivity.
Qed.

Lemma marker_line_truthy (line : str) :
  contains marker line = true ->
  truthy line = true /\ truthy (strip line) = true.
Proof.
  intros Hm. pose proof (contains_marker_bang _ Hm) as Hb. split.
  - destruct line; [destruct Hb|reflexivity].
  - now apply truthy_strip with (c := "!"%char).
Qed.

(** What [get_link] makes of a line with the marker, rule by rule. *)
Lemma normalize_line_by_rule (paper_id line : str) :
  contains marker line = true ->
  normalize_line paper_id line
  = marker
    ++ filter not_rparen
         (if contains (py "ar5iv.labs.arxiv.org") line
          then replace marker (py "https://") line
          else if contains (py "https:/arxiv.org/html/" ++ paper_id ++ py "/")
                           line
          then replace marker (scoped_base paper_id ++ py "/") line
          else if contains (py "(arxiv.org") line
          then replace (py "![](arxiv.org") (scoped_base paper_id) line
          else replace marker (scoped_base paper_id ++ py "/") line)
    ++ py ")".
Proof.
  intros Hm. unfold normalize_line. rewrite Hm. unfold get_link.
  destruct (marker_line_truthy _ Hm) as [-> ->]. cbn [negb orb].
  destruct (contains (py "ar5iv.labs.arxiv.org") line);
    [apply rewrap_shape|].
  destruct (contains (py "https:/arxiv.org/html/" ++ paper_id ++ py "/")
                     line); [apply rewrap_shape|].
  destruct (contains (py "(arxiv.org") line); apply rewrap_shape.
Qed.

(** C4, amended: the normalizer keeps every line without the marker and
    replaces every line with the marker by what [get_link] makes of the
    whole line: the marker, then the line after one replacement pass and
    with every closing parenthesis deleted, then one closing parenthesis.
    The pass replaces each marker by the scheme (rule 1) or by the scoped
    base path and a slash (rule 2 and default rule); under rule 3 it
    replaces each marker followed by the bare domain by the scoped base
    path and leaves the other markers where they are.  So on a line with
    one reference, under rule 1, rule 2 or the default rule, the text
    before and after the reference lands inside the new reference without
    its closing parentheses; only a line that is exactly one reference,
    free of parentheses, comes out as the same reference with the prefix
    in front of it. *)
Theorem marker_lines_rewritten_whole (text_md paper_id : str) :
  adjust_links text_md paper_id
  = join [nl] (map (normalize_line paper_id) (split nl text_md))
  /\ (forall line,
         contains marker line = false -> normalize_line paper_id line = line)
  /\ (forall line,
         contains marker line = true ->
         normalize_line paper_id line
         = marker
           ++ filter not_rparen
                (if contains (py "ar5iv.labs.arxiv.org") line
                 then replace marker (py "https://") line
                 else if contains (py "https:/arxiv.org/html/" ++ paper_id
                                   ++ py "/") line
                 then replace marker (scoped_base paper_id ++ py "/") line
                 else if contains (py "(arxiv.org") line
                 then replace (py "![](arxiv.org") (scoped_base paper_id) line
                 else replace marker (scoped_base paper_id ++ py "/") line)
           ++ py ")")
  /\ (forall before ref after,
         let line := before ++ marker ++ ref ++ py ")" ++ after in
         contains marker before = false ->
         contains marker (ref ++ py ")" ++ after) = false ->
         contains (py "ar5iv.labs.arxiv.org") line = true
         \/ contains (py "https:/arxiv.org/html/" ++ paper_id ++ py "/") line
            = true
         \/ contains (py "(arxiv.org") line = false ->
         normalize_line paper_id line
         = marker
           ++ filter not_rparen
                (before
                 ++ (if contains (py "ar5iv.labs.arxiv.org") line
                     then py "https://"
                     else scoped_base paper_id ++ py "/")
                 ++ ref ++ py ")" ++ after)
           ++ py ")")
  /\ (forall line,
         contains marker line = true ->
         contains (py "ar5iv.labs.arxiv.org") line = false ->
         contains (py "https:/arxiv.org/html/" ++ paper_id ++ py "/") line
         = false ->
         contains (py "(arxiv.org") line = true ->
         contains (py "![](arxiv.org") line = false ->
         normalize_line paper_id line
         = marker ++ filter not_rparen line ++ py ")")
  /\ (forall ref,
         ~ In ")"%char ref -> ~ In ")"%char paper_id ->
         contains marker ref = false ->
         contains (py "ar5iv.labs.arxiv.org") (marker ++ ref ++ py ")")
         = false ->
         contains (py "https:/arxiv.org/html/" ++ paper_id ++ py "/")
                  (marker ++ ref ++ py ")") = false ->
         contains (py "(arxiv.org") (marker ++ ref ++ py ")") = false ->
         normalize_line paper_id (marker ++ ref ++ py ")")
         = marker ++ scoped_base paper_id ++ py "/" ++ ref ++ py ")").
Proof.
  split; [apply adjust_links_linewise|]. split; [|split; [|split; [|split]]].
  - intros line Hm. unfold normalize_line. now rewrite Hm.
  - intros line. apply normalize_line_by_rule.
  - intros before ref after line Hb Hr Hrule.
    assert (Hm : contains marker line = true)
      by apply (contains_intro before marker (ref ++ py ")" ++ after)).
    rewrite (normalize_line_by_rule _ _ Hm).
    assert (Hgo : forall new,
               replace marker new line
               = before ++ new ++ ref ++ py ")" ++ after).
    { intros new.
      change (replace marker new line)
        with (replace_go marker new 0
                (before ++ marker ++ (ref ++ py ")" ++ after))).
      rewrite (replace_go_before _ _ _ Hb).
      now rewrite (replace_go_absent _ _ _ Hr). }
    destruct (contains (py "ar5iv.labs.arxiv.org") line);
      [now rewrite Hgo|].
    destruct (contains (py "https:/arxiv.org/html/" ++ paper_id ++ py "/")
                       line); [now rewrite Hgo|].
    destruct Hrule as [H|[H|H]]; try discriminate H.
    now rewrite H, Hgo.
  - intros line Hm H1 H2 H3 H4.
    rewrite (normalize_line_by_rule _ _ Hm), H1, H2, H3.
    change (replace (py "![](arxiv.org") (scoped_base paper_id) line)
      with (replace_go (py "![](arxiv.org") (scoped_base paper_id) 0 line).
    now rewrite (replace_go_absent _ _ _ H4).
  - intros ref. apply bare_reference_default.
Qed.

Lemma marker_lines_rewritten_whole_witness :
  normalize_line (py "X")
    (py "(see) " ++ marker ++ py "a.png" ++ py ")" ++ py " end")
  = py "![]((see https://arxiv.org/html/X/a.png end)"
  /\ normalize_line (py "X") (py "see (arxiv.org/abs/1) ![](x.png)")
     = py "![](see (arxiv.org/abs/1 ![](x.png)"
  /\ normalize_line (py "X") (marker ++ py "foo.png" ++ py ")")
     = marker ++ scoped_base (py "X") ++ py "/" ++ py "foo.png" ++ py ")".
Proof.
  destruct (marker_lines_rewritten_whole bare_reference (py "X"))
    as (_ & _ & _ & Hone & Hthree & Hbare).
  split; [|split].
  - rewrite (Hone (py "(see) ") (py "a.png") (py " end"));
      [reflexivity|reflexivity|reflexivity|].
    right. right. reflexivity.
  - rewrite Hthree; reflexivity.
  - apply Hbare; try reflexivity; cbn; intuition discriminate.
Defined.

(** C10 as stated fails when the identifier holds a line break: the
    rewritten reference then spans two lines and the line after it moves
    down by one. *)
Lemma line_break_in_id_shifts_lines :
  ~ (forall (text_md paper_id : str) (i : nat) (line : str),
        nth_error (split nl text_md) i = Some line ->
        contains marker line = false ->
        nth_error (split nl (adjust_links text_md paper_id)) i = Some line).
Proof.
  intros H.
  specialize (H reference_then_text two_line_id 1 (py "hello")
                eq_refl eq_refl).
  vm_compute in H. discriminate H.
Qed.

(** C10, amended: for every document and every subject identifier that
    holds no line break, each line of the input without the marker stands
    unchanged at the same line of the output. *)
Theorem marker_free_lines_unchanged
        (text_md paper_id : str) (i : nat) (line : str) :
  no_newline paper_id ->
  nth_error (split nl text_md) i = Some line ->
  contains marker line = false ->
  nth_error (split nl (adjust_links text_md paper_id)) i = Some line.
Proof.
  intros Hid Hi Hm.
  rewrite adjust_links_lines by exact Hid.
  rewrite nth_error_map, Hi. cbn [option_map].
  unfold normalize_line. now rewrite Hm.
Qed.

Lemma marker_free_lines_unchanged_witness :
  nth_error (split nl (adjust_links reference_then_text (py "X"))) 1
  = Some (py "hello").
Proof.
  apply (marker_free_lines_unchanged reference_then_text (py "X") 1
           (py "hello")).
  - intros [H|[]]. discriminate H.
  - reflexivity.
  - reflexivity.
Defined.

(** ** More on the validator *)

Section AscendingFacts.
Variable A : Type.
Variable key : A -> Z.

Lemma insert_sorted_ascending (x : A) (l : list A) :
  ascending key l -> ascending key (insert_sorted key false x l).
Proof.
  induction l as [|a l IH]; intros Hl; simpl.
  - repeat constructor.
  - apply StronglySorted_inv in Hl as [Hl Ha].
    unfold goes_before. destruct (key x <=? key a)%Z eqn:E.
    + apply Z.leb_le in E. constructor.
      * now constructor.
      * constructor; [exact E|].
        eapply Forall_impl; [|exact Ha]. intros z Hz. cbv beta in *. lia.
    + apply Z.leb_gt in E. constructor; [now apply IH|].
      eapply Permutation_Forall; [apply insert_sorted_perm|].
      constructor; [lia|exact Ha].
Qed.

Lemma sorted_ascending (l : list A) : ascending key (sorted key false l).
Proof.
  induction l as [|x l IH]; simpl; [constructor|].
  now apply insert_sorted_ascending.
Qed.

(** Sorting leaves a list in ascending order as it is. *)
Lemma sorted_fixed (l : list A) : ascending key l -> sorted key false l = l.
Proof.
  induction l as [|x l IH]; intros Hl; [reflexivity|].
  apply StronglySorted_inv in Hl as [Hl Hx]. simpl. rewrite (IH Hl).
  destruct l as [|y l]; [reflexivity|]. simpl. unfold goes_before.
  apply Forall_inv in Hx. apply Z.leb_le in Hx. now rewrite Hx.
Qed.

Lemma ascending_map (l : list A) :
  ascending key l <-> StronglySorted Z.le (map key l).
Proof.
  induction l as [|x l IH]; simpl.
  - split; constructor.
  - split; intros H; apply StronglySorted_inv in H as [H Hx];
      (constructor; [now apply IH|]).
    + rewrite Forall_map. exact Hx.
    + rewrite Forall_map in Hx. exact Hx.
Qed.
End AscendingFacts.

Lemma seq_strongly_sorted (a n : nat) :
  StronglySorted Z.le (map Z.of_nat (seq a n)).
Proof.
  revert a; induction n as [|n IH]; intros a; simpl; constructor.
  - apply IH.
  - rewrite Forall_map, Forall_forall. intros x Hx.
    apply in_seq in Hx. lia.
Qed.

Lemma range_strongly_sorted (n : nat) : StronglySorted Z.le (range n).
Proof. apply seq_strongly_sorted. Qed.

(** Two ascending lists with the same elements are the same list. *)
Lemma strongly_sorted_perm_eq (l1 l2 : list Z) :
  StronglySorted Z.le l1 -> StronglySorted Z.le l2 ->
  Permutation l1 l2 -> l1 = l2.
Proof.
  revert l2; induction l1 as [|a l1 IH]; intros l2 H1 H2 Hp.
  - apply Permutation_nil in Hp. now subst.
  - destruct l2 as [|b l2].
    { apply Permutation_sym, Permutation_nil in Hp. discriminate Hp. }
    apply StronglySorted_inv in H1 as [H1 Ha].
    apply StronglySorted_inv in H2 as [H2 Hb].
    rewrite Forall_forall in Ha, Hb.
    assert (E : a = b).
    { assert (Hab : In a (b :: l2))
        by (eapply Permutation_in; [exact Hp|now left]).
      assert (Hba : In b (a :: l1))
        by (eapply Permutation_in; [apply Permutation_sym, Hp|now left]).
      destruct Hab as [Hab|Hab]; [now subst|].
      destruct Hba as [Hba|Hba]; [now subst|].
      specialize (Ha _ Hba). specialize (Hb _ Hab). lia. }
    subst b. f_equal. apply IH; try assumption.
    now apply Permutation_cons_inv in Hp.
Qed.

(** The comparison of the sorted positions with [range] is a test for the
    positions being 0..n-1 in some order. *)
Lemma sorted_positions_range (cs : list ScriptComponent) :
  map position (sorted position false cs) = range (length cs)
  <-> Permutation (map position cs) (range (length cs)).
Proof.
  split; intros H.
  - rewrite <- H. apply Permutation_map, sorted_perm.
  - apply strongly_sorted_perm_eq.
    + apply (proj1 (@ascending_map _ position _)), sorted_ascending.
    + apply range_strongly_sorted.
    + rewrite <- H. apply Permutation_map, Permutation_sym, sorted_perm.
Qed.

Lemma no_adjacent_of_no_errors (cs : list ScriptComponent) :
  consecutive_errors cs = [] -> no_adjacent_headlines cs = true.
Proof.
  intros H. destruct (no_adjacent_headlines cs) eqn:E; [reflexivity|].
  apply adjacent_headlines_reported in E. rewrite H in E. destruct E.
Qed.

(** What is enough for the validator to accept, the expected identifier
    being the sentinel or the candidate's. *)
Lemma accepts_when_invariants_hold (expected : str) (values : ArxflixScript) :
  expected = sentinel \/ paper_id values = expected ->
  let sc := sorted position false (components values) in
  map position sc = range (length sc) ->
  starts_with_headline sc = true ->
  no_adjacent_headlines sc = true ->
  forallb legal_kind sc = true ->
  validate_script_structure expected values
  = Return (set_components values sc).
Proof.
  intros Hid sc Hpos Hfirst Hadj Hk.
  rewrite (match_outcome _ _ Hid). cbv zeta. subst sc.
  destruct (sorted position false (components values)) as [|first rest];
    [discriminate Hfirst|].
  rewrite Hpos, list_Z_eqb_refl.
  cbn [starts_with_headline] in Hfirst. rewrite Hfirst.
  rewrite (consecutive_errors_legal _ Hk Hadj).
  rewrite finish_outcome. cbn [app set_components components].
  now rewrite (type_errors_legal _ Hk).
Qed.

(** X1: every script the validator returns meets the six invariants, and is
    the candidate with its components sorted by position. *)
Theorem accepted_script_meets_invariants
        (expected : str) (values script : ArxflixScript) :
  validate_script_structure expected values = Return script ->
  script = set_components values (sorted position false (components values))
  /\ Permutation (components values) (components script)
  /\ components script <> []
  /\ map position (components script) = range (length (components script))
  /\ starts_with_headline (components script) = true
  /\ no_adjacent_headlines (components script) = true
  /\ forallb legal_kind (components script) = true
  /\ (expected = sentinel \/ paper_id script = expected).
Proof.
  intros Hv.
  destruct (validate_return_inv _ _ _ Hv) as (E & Hne & Hpos & Hf & Hc & Hk).
  repeat split; try assumption.
  - rewrite E. apply sorted_perm.
  - now apply no_adjacent_of_no_errors.
  - destruct (str_eqb expected sentinel) eqn:Es;
      [left; now apply str_eqb_eq|].
    destruct (str_eqb (paper_id values) expected) eqn:Em.
    + right. apply str_eqb_eq in Em. now rewrite E.
    + apply str_eqb_neq in Es, Em.
      rewrite (mismatch_outcome _ _ Es Em) in Hv. discriminate Hv.
Qed.

Lemma accepted_script_meets_invariants_witness :
  map position (components (set_components two_beat_candidate
     (sorted position false (components two_beat_candidate))))
  = range 2.
Proof.
  apply (accepted_script_meets_invariants (py "2405.11273")
           two_beat_candidate). reflexivity.
Defined.

(** X2: validating a script the validator returned returns it again. *)
Theorem revalidation_returns_same_script
        (expected : str) (values script : ArxflixScript) :
  validate_script_structure expected values = Return script ->
  validate_script_structure expected script = Return script.
Proof.
  intros Hv.
  destruct (accepted_script_meets_invariants _ _ _ Hv)
    as (_ & _ & _ & Hpos & Hf & Ha & Hk & Hid).
  assert (Hs : sorted position false (components script)
               = components script).
  { apply sorted_fixed, (proj2 (@ascending_map _ position _)).
    rewrite Hpos. apply range_strongly_sorted. }
  rewrite accepts_when_invariants_hold; rewrite ?Hs; try assumption.
  now destruct script.
Qed.

Lemma revalidation_returns_same_script_witness :
  validate_script_structure (py "2405.11273") headline_then_text
  = Return headline_then_text.
Proof.
  apply (revalidation_returns_same_script (py "2405.11273")
           headline_then_text). reflexivity.
Defined.

Lemma msg_invalid_type_not_positions (kind : str) :
  msg_invalid_type kind <> msg_positions.
Proof.
  intros H. apply (f_equal (@rev ascii)) in H.
  unfold msg_invalid_type, msg_positions in H.
  rewrite !rev_app_distr in H. simpl in H. discriminate H.
Qed.

Lemma later_messages_not_positions (m : str) (b : bool)
      (cs cs' : list ScriptComponent) :
  In m ((if b then [] else [msg_start])
        ++ consecutive_errors cs ++ type_errors cs') ->
  m <> msg_positions.
Proof.
  intros H E. subst m.
  apply in_app_or in H as [H|H].
  - destruct b; [destruct H|]. destruct H as [H|[]]. discriminate H.
  - apply in_app_or in H as [H|H].
    + apply consecutive_errors_shape in H as [k H]. discriminate H.
    + apply type_errors_shape in H as [k H]. symmetry in H.
      now apply msg_invalid_type_not_positions in H.
Qed.

(** X3: the identifier check passed and there are components: the position
    violation is reported exactly when the positions are not 0..n-1 in
    some order. *)
Theorem position_violation_iff_not_permutation
        (expected : str) (values : ArxflixScript) :
  expected = sentinel \/ paper_id values = expected ->
  components values <> [] ->
  (exists errors,
      validate_script_structure expected values = Raise (ValueError errors)
      /\ In msg_positions errors)
  <-> ~ Permutation (map position (components values))
                    (range (length (components values))).
Proof.
  intros Hid Hne. split.
  - intros (errors & Hv & Hin) Hp.
    apply sorted_positions_range in Hp.
    rewrite (match_outcome _ _ Hid) in Hv. cbv zeta in Hv.
    rewrite sorted_length, Hp, list_Z_eqb_refl in Hv.
    destruct (sorted position false (components values)); [discriminate Hv|].
    rewrite finish_outcome in Hv.
    destruct (_ ++ type_errors _) eqn:El in Hv; [discriminate Hv|].
    injection Hv as <-. rewrite <- El in Hin. cbn [app] in Hin.
    rewrite <- app_assoc in Hin.
    now apply later_messages_not_positions in Hin.
  - intros Hp.
    destruct (violations_complete_when_id_passes expected values Hid Hne)
      as (errors & Hv & Hpos & _).
    assert (Hin : In msg_positions errors).
    { apply Hpos. rewrite sorted_length. intros E.
      now apply sorted_positions_range in E. }
    exists errors. split; [|exact Hin].
    destruct errors; [destruct Hin|exact Hv].
Qed.

Lemma position_violation_iff_not_permutation_witness :
  exists errors,
    validate_script_structure (py "1706.03762") misordered_candidate
    = Raise (ValueError errors)
    /\ In msg_positions errors.
Proof.
  apply (proj2 (position_violation_iff_not_permutation
                  (py "1706.03762") misordered_candidate
                  (or_intror eq_refl) ltac:(discriminate))).
  intros Hp.
  assert (H : In 0%Z (map position (components misordered_candidate))).
  { eapply Permutation_in; [apply Permutation_sym, Hp|]. now left. }
  cbn in H. intuition discriminate.
Defined.

(** *** Kinds are compared stripped *)

Lemma insert_sorted_same_beat (x x' : ScriptComponent)
      (l l' : list ScriptComponent) :
  same_beat x x' -> Forall2 same_beat l l' ->
  Forall2 same_beat (insert_sorted position false x l)
          (insert_sorted position false x' l').
Proof.
  intros Hx Hl. induction Hl as [|y y' l l' Hy Hl IH]; simpl.
  - constructor; [exact Hx|constructor].
  - unfold goes_before.
    destruct Hx as [Hxk Hxp]. destruct Hy as [Hyk Hyp].
    rewrite <- Hxp, <- Hyp.
    destruct (position x <=? position y)%Z.
    + constructor; [now split|]. constructor; [now split|exact Hl].
    + constructor; [now split|exact IH].
Qed.

Lemma sorted_same_beat (l l' : list ScriptComponent) :
  Forall2 same_beat l l' ->
  Forall2 same_beat (sorted position false l) (sorted position false l').
Proof.
  intros H. induction H as [|x x' l l' Hx Hl IH]; simpl; [constructor|].
  now apply insert_sorted_same_beat.
Qed.

Lemma same_beat_positions (l l' : list ScriptComponent) :
  Forall2 same_beat l l' -> map position l = map position l'.
Proof.
  intros H. induction H as [|x x' l l' [_ Hx] Hl IH]; simpl; congruence.
Qed.

Lemma same_beat_type_errors (l l' : list ScriptComponent) :
  Forall2 same_beat l l' -> type_errors l = type_errors l'.
Proof.
  unfold type_errors.
  intros H. induction H as [|x x' l l' [Hx _] Hl IH]; [reflexivity|].
  cbn [flat_map]. now rewrite Hx, IH.
Qed.

Lemma same_beat_consecutive_errors (l l' : list ScriptComponent) :
  Forall2 same_beat l l' -> consecutive_errors l = consecutive_errors l'.
Proof.
  intros H. induction H as [|x x' l l' [Hx _] Hl IH]; [reflexivity|].
  destruct Hl as [|y y' l l' [Hy Hyp] Hl]; [reflexivity|].
  change (consecutive_errors (x :: y :: l))
    with ((if str_eqb (kind_of y) (kind_of x)
              && negb (str_eqb (kind_of y) ScriptComponentType.TEXT)
           then [msg_consecutive (kind_of y)] else [])
          ++ consecutive_errors (y :: l)).
  change (consecutive_errors (x' :: y' :: l'))
    with ((if str_eqb (kind_of y') (kind_of x')
              && negb (str_eqb (kind_of y') ScriptComponentType.TEXT)
           then [msg_consecutive (kind_of y')] else [])
          ++ consecutive_errors (y' :: l')).
  now rewrite Hx, Hy, IH.
Qed.

Lemma raised_finish (errors : list str) (values : ArxflixScript) :
  raised (finish errors values)
  = match errors ++ type_errors (components values) with
    | [] => None
    | e :: es => Some (ValueError (e :: es))
    end.
Proof.
  rewrite finish_outcome.
  now destruct (errors ++ type_errors (components values)).
Qed.

(** X4: two candidates with the same identifier whose components agree, one
    by one, on the stripped kind and on the position fail alike or pass
    alike: neither the contents nor the whitespace around a kind has any
    part in the outcome. *)
Theorem outcome_depends_on_stripped_kinds
        (expected : str) (values values' : ArxflixScript) :
  paper_id values = paper_id values' ->
  Forall2 same_beat (components values) (components values') ->
  raised (validate_script_structure expected values)
  = raised (validate_script_structure expected values').
Proof.
  intros Hp Hc.
  destruct (str_eqb expected sentinel) eqn:Es.
  - apply str_eqb_eq in Es.
    rewrite !match_outcome by now left. cbv zeta.
    pose proof (sorted_same_beat _ _ Hc) as Hs.
    destruct Hs as [|x x' l l' Hx Hl]; [reflexivity|].
    rewrite !raised_finish. cbn [set_components components].
    pose proof (Forall2_cons _ _ Hx Hl) as Hxl.
    rewrite (same_beat_positions _ _ Hxl), (Forall2_length Hxl).
    rewrite (same_beat_consecutive_errors _ _ Hxl).
    rewrite (same_beat_type_errors _ _ Hxl).
    unfold is_headline. destruct Hx as [-> _]. reflexivity.
  - destruct (str_eqb (paper_id values) expected) eqn:Em.
    + apply str_eqb_eq in Em.
      rewrite !match_outcome by (right; congruence). cbv zeta.
      pose proof (sorted_same_beat _ _ Hc) as Hs.
      destruct Hs as [|x x' l l' Hx Hl]; [reflexivity|].
      rewrite !raised_finish. cbn [set_components components].
      pose proof (Forall2_cons _ _ Hx Hl) as Hxl.
      rewrite (same_beat_positions _ _ Hxl), (Forall2_length Hxl).
      rewrite (same_beat_consecutive_errors _ _ Hxl).
      rewrite (same_beat_type_errors _ _ Hxl).
      unfold is_headline. destruct Hx as [-> _]. reflexivity.
    + apply str_eqb_neq in Es, Em.
      rewrite !mismatch_outcome by congruence.
      rewrite (same_beat_type_errors _ _ Hc).
      now destruct Hc.
Qed.

Lemma outcome_depends_on_stripped_kinds_witness :
  raised (validate_script_structure (py "2405.11273") two_beat_candidate)
  = raised (validate_script_structure (py "2405.11273")
              (set_components two_beat_candidate
                 [component "Text" "" 1; component "Headline" "" 0])).
Proof.
  apply outcome_depends_on_stripped_kinds; [reflexivity|].
  repeat constructor.
Defined.

(** ** More on the substitution *)

Lemma valid_key_fst (k v v' : str) : valid_key (k, v) = valid_key (k, v').
Proof. reflexivity. Qed.

Lemma re_sub_single (k v : str) (n : nat) (text : str) :
  re_sub [k] [(k, v)] n text = replace_go k v n text.
Proof.
  revert n; induction text as [|c text IH]; intros n; [reflexivity|].
  cbn [re_sub replace_go find]. destruct n as [|n]; [|apply IH].
  destruct (starts_with k (c :: text)); [|now rewrite IH].
  cbn [dict_get]. now rewrite str_eqb_refl, IH.
Qed.

(** X5: with one entry the substitution is [text.replace(key, value)]. *)
Theorem single_entry_is_replace (k v text : str) :
  valid_key (k, v) = true ->
  replace_keys_with_values text [[(k, v)]] = replace k v text.
Proof.
  intros Hv. unfold replace_keys_with_values, sorted_keys, combined_dict.
  cbn [fold_left dict_update dict_set fst snd filter]. rewrite Hv.
  cbn [map fst sorted insert_sorted]. rewrite re_sub_single.
  unfold valid_key in Hv. cbn [fst] in Hv. now destruct k.
Qed.

Lemma single_entry_is_replace_witness :
  replace_keys_with_values (py "a-b-c") [[(py "-", py "+")]]
  = replace (py "-") (py "+") (py "a-b-c").
Proof. apply single_entry_is_replace. reflexivity. Defined.

Lemma re_sub_absent (keys : list str) (d : dict) (text : str) :
  (forall k, In k keys -> contains k text = false) ->
  re_sub keys d 0 text = text.
Proof.
  induction text as [|c text IH]; intros H; [reflexivity|].
  rewrite re_sub_nomatch.
  - f_equal. apply IH. intros k Hk. specialize (H k Hk).
    rewrite contains_cons in H. now apply orb_false_elim in H.
  - apply find_none_iff. intros k Hk. specialize (H k Hk).
    rewrite contains_cons in H. now apply orb_false_elim in H.
Qed.

(** X6: a text in which no usable key occurs comes back as it is. *)
Theorem text_without_keys_unchanged (text : str) (dict_list : list dict) :
  (forall d kv, In d dict_list -> In kv d -> valid_key kv = true ->
                contains (fst kv) text = false) ->
  replace_keys_with_values text dict_list = text.
Proof.
  intros H. unfold replace_keys_with_values.
  destruct (combined_dict dict_list) eqn:E; [reflexivity|]. rewrite <- E.
  apply re_sub_absent. intros k Hk. apply sorted_keys_In in Hk.
  apply in_map_iff in Hk as (kv & <- & Hkv).
  apply combined_entries in Hkv as (Hv & o & Ho & Hin).
  now apply (H o kv).
Qed.

Lemma text_without_keys_unchanged_witness :
  replace_keys_with_values (py "no figure here")
    [[(py "![](a.png)", py "![](b.png)")]]
  = py "no figure here".
Proof.
  apply text_without_keys_unchanged.
  intros d kv [<-|[]] [<-|[]] _. reflexivity.
Defined.

(** *** Merging and filtering *)

Lemma filter_dict_set (acc : dict) (k v : str) :
  filter valid_key (dict_set acc k v)
  = if valid_key (k, v) then dict_set (filter valid_key acc) k v
    else filter valid_key acc.
Proof.
  induction acc as [|[k' v'] acc IH].
  - simpl. now destruct (valid_key (k, v)).
  - cbn [dict_set]. destruct (str_eqb k' k) eqn:E.
    + apply str_eqb_eq in E. subst k'. cbn [filter].
      rewrite (valid_key_fst k v' v).
      destruct (valid_key (k, v)); [|reflexivity].
      cbn [dict_set]. now rewrite str_eqb_refl.
    + cbn [filter]. rewrite IH.
      destruct (valid_key (k', v')); [|reflexivity].
      destruct (valid_key (k, v)); [|reflexivity].
      cbn [dict_set]. now rewrite E.
Qed.

Lemma filter_dict_update (acc other : dict) :
  filter valid_key (dict_update acc other)
  = dict_update (filter valid_key acc) (filter valid_key other).
Proof.
  unfold dict_update. revert acc.
  induction other as [|[k v] other IH]; intros acc; [reflexivity|].
  cbn [fold_left fst snd filter]. rewrite IH, filter_dict_set.
  destruct (valid_key (k, v)); reflexivity.
Qed.

Lemma filter_fold_update (dl : list dict) (acc : dict) :
  filter valid_key (fold_left dict_update dl acc)
  = fold_left dict_update (map (filter valid_key) dl) (filter valid_key acc).
Proof.
  revert acc; induction dl as [|d dl IH]; intros acc; [reflexivity|].
  cbn [fold_left map]. now rewrite IH, filter_dict_update.
Qed.

Lemma filter_valid_twice (d : dict) :
  filter valid_key (filter valid_key d) = filter valid_key d.
Proof.
  induction d as [|kv d IH]; [reflexivity|]. cbn [filter].
  destruct (valid_key kv) eqn:E; [|exact IH]. cbn [filter].
  now rewrite E, IH.
Qed.

(** X7: entries whose key is empty or blank have no part in the result,
    whichever dictionary holds them: dropping them from every dictionary
    beforehand changes nothing. *)
Theorem blank_keys_ignored (text : str) (dict_list : list dict) :
  replace_keys_with_values text (map (filter valid_key) dict_list)
  = replace_keys_with_values text dict_list.
Proof.
  assert (E : combined_dict (map (filter valid_key) dict_list)
              = combined_dict dict_list).
  { unfold combined_dict. rewrite !filter_fold_update, map_map.
    f_equal. apply map_ext. intros d. apply filter_valid_twice. }
  unfold replace_keys_with_values, sorted_keys. now rewrite E.
Qed.

Lemma dict_get_set (d : dict) (k v default : str) :
  dict_get (dict_set d k v) k default = v.
Proof.
  induction d as [|[k' v'] d IH]; simpl.
  - now rewrite str_eqb_refl.
  - destruct (str_eqb k' k) eqn:E; simpl; now rewrite E.
Qed.

Lemma dict_get_filter (d : dict) (k default : str) :
  valid_key (k, default) = true ->
  dict_get (filter valid_key d) k default = dict_get d k default.
Proof.
  intros Hk. induction d as [|[k' v'] d IH]; [reflexivity|].
  cbn [filter dict_get]. destruct (valid_key (k', v')) eqn:E.
  - cbn [dict_get]. now rewrite IH.
  - destruct (str_eqb k' k) eqn:Ek; [|exact IH].
    apply str_eqb_eq in Ek. subst k'.
    rewrite (valid_key_fst k v' default) in E. congruence.
Qed.

(** X8: a key given again by a later dictionary takes the later value: a
    text that is that key is replaced by it. *)
Theorem latest_value_wins (dict_list : list dict) (k v : str) :
  valid_key (k, v) = true ->
  dict_get (combined_dict (dict_list ++ [[(k, v)]])) k k = v
  /\ replace_keys_with_values k (dict_list ++ [[(k, v)]]) = v.
Proof.
  intros Hv.
  assert (Hg : dict_get (combined_dict (dict_list ++ [[(k, v)]])) k k = v).
  { unfold combined_dict. rewrite fold_left_app. cbn [fold_left].
    rewrite dict_get_filter by exact Hv.
    unfold dict_update. cbn [fold_left fst snd]. apply dict_get_set. }
  split; [exact Hg|].
  assert (Hin : In k (map fst (combined_dict (dict_list ++ [[(k, v)]])))).
  { apply (combined_keys (dict_list ++ [[(k, v)]]) [(k, v)] (k, v));
      [apply in_or_app; right; now left | now left | exact Hv]. }
  rewrite (replace_keys_nonempty _ _ _ Hin).
  rewrite <- (app_nil_r k) at 3.
  rewrite re_sub_longest; [|exact Hin|].
  - rewrite Hg. apply app_nil_r.
  - intros k' _ Hs. rewrite app_nil_r in Hs. now apply starts_with_length.
Qed.

Lemma latest_value_wins_witness :
  replace_keys_with_values (py "![](a.png)")
    ([[(py "![](a.png)", py "first")]] ++ [[(py "![](a.png)", py "second")]])
  = py "second".
Proof.
  apply (latest_value_wins [[(py "![](a.png)", py "first")]]).
  reflexivity.
Defined.

(** ** More on the link normalizer *)

(** A line that is one reference: the replacement of the marker lands in
    front of the reference and nothing else moves. *)
Lemma rewrap_bare_reference (new ref : str) :
  ~ In ")"%char ref -> ~ In ")"%char new -> contains marker ref = false ->
  rewrap marker new (marker ++ ref ++ py ")")
  = marker ++ new ++ ref ++ py ")".
Proof.
  intros Href Hnew Hm. rewrite rewrap_shape.
  change (replace marker new (marker ++ ref ++ py ")"))
    with (replace_go marker new 0 (marker ++ ref ++ py ")")).
  rewrite replace_go_match by discriminate.
  rewrite replace_go_absent.
  - rewrite !filter_app, (not_rparen_keeps ref Href),
      (not_rparen_keeps new Hnew).
    change (filter not_rparen (py ")")) with (@nil ascii).
    now rewrite app_nil_r, <- !app_assoc.
  - destruct (contains marker (ref ++ py ")")) eqn:E; [|reflexivity].
    apply contains_before_last in E; [congruence|discriminate|].
    cbn. intuition discriminate.
Qed.

Lemma bare_reference_truthy (ref : str) :
  truthy (marker ++ ref ++ py ")") = true
  /\ truthy (strip (marker ++ ref ++ py ")")) = true.
Proof.
  split; [reflexivity|].
  apply truthy_strip with (c := "!"%char); [now left|reflexivity].
Qed.

Lemma scoped_base_no_rparen (paper_id tail : str) :
  ~ In ")"%char paper_id -> ~ In ")"%char tail ->
  ~ In ")"%char (scoped_base paper_id ++ tail).
Proof.
  intros Hid Ht H. unfold scoped_base in H.
  apply in_app_or in H as [H|H]; [|contradiction].
  apply in_app_or in H as [H|H]; [|contradiction].
  cbn in H. intuition discriminate.
Qed.

(** X9: Rule 1: a bare reference that names the mirror domain gets the scheme
    put in front of it, whatever the subject identifier. *)
Theorem mirror_reference_gets_scheme (paper_id ref : str) :
  ~ In ")"%char ref -> contains marker ref = false ->
  contains (py "ar5iv.labs.arxiv.org") ref = true ->
  get_link (marker ++ ref ++ py ")") paper_id
  = marker ++ py "https://" ++ ref ++ py ")".
Proof.
  intros Href Hm Ha. unfold get_link.
  destruct (bare_reference_truthy ref) as [-> ->]. cbn [negb orb].
  rewrite (contains_inside _ ref _ Ha (contains_intro marker ref (py ")"))).
  apply rewrap_bare_reference; try assumption.
  cbn. intuition discriminate.
Qed.

Lemma mirror_reference_gets_scheme_witness :
  get_link (marker ++ py "ar5iv.labs.arxiv.org/html/1706.03762/x1.png"
              ++ py ")") (py "1706.03762")
  = marker ++ py "https://"
    ++ py "ar5iv.labs.arxiv.org/html/1706.03762/x1.png" ++ py ")".
Proof.
  apply mirror_reference_gets_scheme; try reflexivity.
  cbn. intuition discriminate.
Defined.

(** X10: Rule 2: a bare reference that already holds the scoped path written
    with one slash is not repaired in place; the scoped base path is put
    in front of it, as under the default rule. *)
Theorem single_slash_reference_prefixed (paper_id ref : str) :
  ~ In ")"%char ref -> ~ In ")"%char paper_id ->
  contains marker ref = false ->
  contains (py "ar5iv.labs.arxiv.org") (marker ++ ref ++ py ")") = false ->
  contains (py "https:/arxiv.org/html/" ++ paper_id ++ py "/")
           (marker ++ ref ++ py ")") = true ->
  get_link (marker ++ ref ++ py ")") paper_id
  = marker ++ (scoped_base paper_id ++ py "/") ++ ref ++ py ")".
Proof.
  intros Href Hid Hm H1 H2. unfold get_link.
  destruct (bare_reference_truthy ref) as [-> ->]. cbn [negb orb].
  rewrite H1, H2. apply rewrap_bare_reference; try assumption.
  apply scoped_base_no_rparen; [exact Hid|]. cbn. intuition discriminate.
Qed.

Lemma single_slash_reference_prefixed_witness :
  get_link (marker ++ py "https:/arxiv.org/html/1706.03762/x1.png" ++ py ")")
           (py "1706.03762")
  = marker ++ (scoped_base (py "1706.03762") ++ py "/")
    ++ py "https:/arxiv.org/html/1706.03762/x1.png" ++ py ")".
Proof.
  apply single_slash_reference_prefixed; try reflexivity;
    cbn; intuition discriminate.
Defined.

(** X11: Rule 3: a reference that opens with the bare domain has the marker and
    the domain replaced by the scoped base path. *)
Theorem bare_domain_reference_scoped (paper_id tail : str) :
  let line := py "![](arxiv.org" ++ tail ++ py ")" in
  ~ In ")"%char tail -> ~ In ")"%char paper_id ->
  contains marker tail = false ->
  contains (py "ar5iv.labs.arxiv.org") line = false ->
  contains (py "https:/arxiv.org/html/" ++ paper_id ++ py "/") line = false ->
  get_link line paper_id = marker ++ scoped_base paper_id ++ tail ++ py ")".
Proof.
  intros line Ht Hid Hm H1 H2. unfold get_link.
  assert (Hs : truthy (strip line) = true)
    by (apply truthy_strip with (c := "!"%char); [now left|reflexivity]).
  rewrite Hs, H1, H2. change (truthy line) with true. cbn [negb orb].
  assert (H3 : contains (py "(arxiv.org") line = true)
    by apply (contains_intro (py "![]") (py "(arxiv.org") (tail ++ py ")")).
  rewrite H3, rewrap_shape.
  change (replace (py "![](arxiv.org") (scoped_base paper_id) line)
    with (replace_go (py "![](arxiv.org") (scoped_base paper_id) 0
                     (py "![](arxiv.org" ++ tail ++ py ")")).
  rewrite replace_go_match by discriminate.
  rewrite replace_go_absent.
  - rewrite !filter_app, (not_rparen_keeps tail Ht).
    rewrite (not_rparen_keeps (scoped_base paper_id)).
    + change (filter not_rparen (py ")")) with (@nil ascii).
      now rewrite app_nil_r, <- !app_assoc.
    + intros H. apply (scoped_base_no_rparen paper_id [] Hid); [easy|].
      now rewrite app_nil_r.
  - destruct (contains (py "![](arxiv.org") (tail ++ py ")")) eqn:E;
      [|reflexivity].
    assert (E' : contains marker (tail ++ py ")") = true).
    { apply contains_inside with (k := py "![](arxiv.org"); [|exact E].
      apply (contains_intro [] marker (py "arxiv.org")). }
    apply contains_before_last in E'; [congruence|discriminate|].
    cbn. intuition discriminate.
Qed.

Lemma bare_domain_reference_scoped_witness :
  get_link (py "![](arxiv.org" ++ py "/x1.png" ++ py ")") (py "1706.03762")
  = marker ++ scoped_base (py "1706.03762") ++ py "/x1.png" ++ py ")".
Proof.
  apply bare_domain_reference_scoped; try reflexivity;
    cbn; intuition discriminate.
Defined.

(** *** The document as a whole *)

Lemma normalize_line_marker (paper_id line : str) :
  contains marker (normalize_line paper_id line) = contains marker line.
Proof.
  unfold normalize_line. destruct (contains marker line) eqn:Hm;
    [|exact Hm].
  assert (Hs : truthy (strip line) = true)
    by (apply truthy_strip with (c := "!"%char);
        [now apply contains_marker_bang|reflexivity]).
  destruct (get_link_wrapped line paper_id Hs) as (body & -> & _).
  apply contains_marker_wrapped.
Qed.

(** X12: for an identifier without line break the normalizer keeps the number
    of lines and the places of the lines that hold a reference. *)
Theorem line_structure_kept (text_md paper_id : str) :
  no_newline paper_id ->
  length (split nl (adjust_links text_md paper_id))
  = length (split nl text_md)
  /\ map (contains marker) (split nl (adjust_links text_md paper_id))
     = map (contains marker) (split nl text_md).
Proof.
  intros Hid. rewrite (adjust_links_lines _ _ Hid). split.
  - apply length_map.
  - rewrite map_map. apply map_ext. intros l. apply normalize_line_marker.
Qed.

Lemma line_structure_kept_witness :
  length (split nl (adjust_links reference_then_text (py "X"))) = 2.
Proof.
  apply (line_structure_kept reference_then_text (py "X")).
  intros [H|[]]. discriminate H.
Defined.

(** X13: for an identifier without line break, every line of the output that
    holds the marker opens with it, ends with a closing parenthesis and
    has no other closing parenthesis. *)
Theorem output_references_wrapped (text_md paper_id line : str) :
  no_newline paper_id ->
  In line (split nl (adjust_links text_md paper_id)) ->
  contains marker line = true ->
  exists body, line = marker ++ body ++ py ")" /\ ~ In ")"%char body.
Proof.
  intros Hid Hin Hm. rewrite (adjust_links_lines _ _ Hid) in Hin.
  apply in_map_iff in Hin as (l0 & <- & _).
  rewrite normalize_line_marker in Hm. unfold normalize_line. rewrite Hm.
  apply get_link_wrapped.
  apply truthy_strip with (c := "!"%char);
    [now apply contains_marker_bang|reflexivity].
Qed.

Lemma output_references_wrapped_witness :
  exists body,
    py "![]((see https://arxiv.org/html/X/a.png end)"
    = marker ++ body ++ py ")" /\ ~ In ")"%char body.
Proof.
  apply (output_references_wrapped captioned_reference (py "X")).
  - intros [H|[]]. discriminate H.
  - now left.
  - reflexivity.
Defined.

(** X14: for an identifier without line break, the normalizer returns the
    document as it is exactly when no line of it holds the marker. *)
Theorem unchanged_iff_no_marker (text_md paper_id : str) :
  no_newline paper_id ->
  adjust_links text_md paper_id = text_md
  <-> forall line, In line (split nl text_md) -> contains marker line = false.
Proof.
  intros Hid. split.
  - intros E line Hl.
    destruct (contains marker line) eqn:Hm; [exfalso|reflexivity].
    apply (f_equal (split nl)) in E.
    rewrite (adjust_links_lines _ _ Hid) in E.
    rewrite <- (map_id (split nl text_md)) in E at 2.
    apply map_ext_in_iff with (a := line) in E; [|exact Hl].
    unfold normalize_line in E. rewrite Hm in E.
    apply get_link_changes in E; [exact E|].
    apply truthy_strip with (c := "!"%char);
      [now apply contains_marker_bang|reflexivity].
  - intros H. rewrite adjust_links_linewise.
    rewrite map_ext_in with (g := fun l => l).
    + rewrite map_id. apply join_split.
    + intros l Hl. unfold normalize_line. now rewrite (H l Hl).
Qed.

Lemma unchanged_iff_no_marker_witness :
  adjust_links (py "No figure here.") (py "X") = py "No figure here.".
Proof.
  apply (proj2 (unchanged_iff_no_marker (py "No figure here.") (py "X")
                  ltac:(intros [H|[]]; discriminate H))).
  intros line [<-|[]]. reflexivity.
Defined.

(** ** More on the pipeline *)

Section PipelineOutcomes.
Variable SYSTEM_PROMPT SYSTEM_PROMPT_NO_LINK : str.
Variable OPENROUTER_API_KEY : option str.
Variable SCRIPGENETOR_MODEL : option str.
Variable create_with_completion :
  CompletionRequest -> Result (option ArxflixScript).
Variable exn_text : Exn -> str.

Let request := openrouter_request SYSTEM_PROMPT SYSTEM_PROMPT_NO_LINK
                 SCRIPGENETOR_MODEL.
Let run_openrouter :=
      _process_script_openrouter SYSTEM_PROMPT SYSTEM_PROMPT_NO_LINK
        OPENROUTER_API_KEY SCRIPGENETOR_MODEL create_with_completion exn_text.
Let run :=
      process_script SYSTEM_PROMPT SYSTEM_PROMPT_NO_LINK
        OPENROUTER_API_KEY SCRIPGENETOR_MODEL create_with_completion exn_text.

Lemma run_openrouter_return (paper paper_id s : str) :
  run_openrouter paper paper_id = Return s
  <-> (exists c key, OPENROUTER_API_KEY = Some (c :: key))
      /\ exists response,
           create_with_completion (request paper paper_id)
           = Return (Some response)
           /\ s = reconstruct_script response.
Proof.
  unfold run_openrouter, _process_script_openrouter. fold request. split.
  - destruct OPENROUTER_API_KEY as [[|c key]|]; try discriminate.
    destruct (create_with_completion (request paper paper_id))
      as [[response|]|e]; try discriminate.
    intros [= <-]. split; [now exists c, key|now exists response].
  - intros [(c & key & ->) (response & -> & ->)]. reflexivity.
Qed.

(** X15: [process_script] returns a text only on the openrouter method, with a
    key in the environment and a response from the backend; the request
    is made of the normalized document and the given identifier, or, for
    a PDF, of the document as given and the sentinel; the text is the
    serialization of the response. *)
Theorem process_script_returns_iff
        (method paper_markdown paper_id : str) (from_pdf : bool) (s : str) :
  run method paper_markdown paper_id from_pdf = Return s
  <-> method = py "openrouter"
      /\ (exists c key, OPENROUTER_API_KEY = Some (c :: key))
      /\ exists response,
           create_with_completion
             (request
                (if from_pdf then paper_markdown
                 else adjust_links paper_markdown paper_id)
                (if from_pdf then sentinel else paper_id))
           = Return (Some response)
           /\ s = reconstruct_script response.
Proof.
  split.
  - unfold run, process_script.
    destruct from_pdf; cbn [negb];
      (destruct (str_eqb method (py "openai")); [discriminate|];
       destruct (str_eqb method (py "local")); [discriminate|];
       destruct (str_eqb method (py "gemini")); [discriminate|];
       destruct (str_eqb method (py "groq")); [discriminate|];
       destruct (str_eqb method (py "openrouter")) eqn:E; [|discriminate];
       apply str_eqb_eq in E; intros H;
       apply run_openrouter_return in H; now split).
  - intros (-> & Hk & Hr). unfold run, process_script.
    destruct from_pdf; cbn [negb];
      change (str_eqb (py "openrouter") (py "openai")) with false;
      change (str_eqb (py "openrouter") (py "local")) with false;
      change (str_eqb (py "openrouter") (py "gemini")) with false;
      change (str_eqb (py "openrouter") (py "groq")) with false;
      change (str_eqb (py "openrouter") (py "openrouter")) with true;
      cbv iota; apply run_openrouter_return; now split.
Qed.

(** X16: whatever the backend raises, the openrouter path raises a ValueError
    with a single message; [process_script] raises nothing else but the
    NameError of the four methods whose functions are missing. *)
Theorem failures_are_value_errors
        (method paper_markdown paper_id : str) (from_pdf : bool) (e : Exn) :
  (run_openrouter paper_markdown paper_id = Raise e ->
   exists msg, e = ValueError [msg])
  /\ (run method paper_markdown paper_id from_pdf = Raise e ->
      (exists msg, e = ValueError [msg])
      \/ (e = NameError
          /\ In method [py "openai"; py "local"; py "gemini"; py "groq"])).
Proof.
  assert (Ho : forall paper id,
             run_openrouter paper id = Raise e ->
             exists msg, e = ValueError [msg]).
  { intros paper id. unfold run_openrouter, _process_script_openrouter.
    destruct OPENROUTER_API_KEY as [[|c key]|];
      try (intros [= <-]; now eexists).
    destruct (create_with_completion _) as [[response|]|e'];
      try discriminate; intros [= <-]; now eexists. }
  split; [apply Ho|].
  unfold run, process_script.
  destruct from_pdf; cbn [negb];
    (destruct (str_eqb method (py "openai")) eqn:E1;
     [apply str_eqb_eq in E1; intros [= <-]; right; split;
      [reflexivity|subst; now left]|];
     destruct (str_eqb method (py "local")) eqn:E2;
     [apply str_eqb_eq in E2; intros [= <-]; right; split;
      [reflexivity|subst; right; now left]|];
     destruct (str_eqb method (py "gemini")) eqn:E3;
     [apply str_eqb_eq in E3; intros [= <-]; right; split;
      [reflexivity|subst; right; right; now left]|];
     destruct (str_eqb method (py "groq")) eqn:E4;
     [apply str_eqb_eq in E4; intros [= <-]; right; split;
      [reflexivity|subst; right; right; right; now left]|];
     destruct (str_eqb method (py "openrouter"));
     [intros H; left; now apply Ho in H
     |intros [= <-]; left; now eexists]).
Qed.
End PipelineOutcomes.

Lemma process_script_returns_iff_witness :
  process_script [] [] (Some (py "sk-or-key")) None
    (fun _ => Return (Some headline_then_text)) (fun _ => [])
    (py "openrouter") bare_reference (py "X") false
  = Return (reconstruct_script headline_then_text).
Proof.
  apply process_script_returns_iff. split; [reflexivity|]. split.
  - now eexists _, _.
  - now exists headline_then_text.
Defined.

Lemma failures_are_value_errors_witness :
  exists msg,
    ValueError
      [py "You need to set the OPENROUTER_API_KEY environment variable."]
    = ValueError [msg].
Proof.
  apply (proj1 (failures_are_value_errors [] [] None None
                  (fun _ => Return None) (fun _ => [])
                  (py "openrouter") [] [] false _)).
  reflexivity.
Defined.

(** *** Environment *)

Lemma env_set_iff (getenv : str -> option str) (var : str) :
  env_set getenv var = true <-> exists c v, getenv var = Some (c :: v).
Proof.
  unfold env_set. destruct (getenv var) as [[|c v]|]; split;
    try discriminate; try (intros (c' & v' & [=])).
  - intros _. now exists c, v.
  - reflexivity.
Qed.

(** X17: the environment check passes exactly when both required variables are
    set and not empty; the openrouter path then never stops on the
    missing key, and asks for the configured model. *)
Theorem validated_environment_reaches_backend
        (getenv : str -> option str)
        (SYSTEM_PROMPT SYSTEM_PROMPT_NO_LINK : str)
        (create_with_completion :
           CompletionRequest -> Result (option ArxflixScript))
        (exn_text : Exn -> str) (paper paper_id : str) :
  (validate_environment getenv = EnvOk
   <-> (exists c v, getenv (py "OPENROUTER_API_KEY") = Some (c :: v))
       /\ (exists c v, getenv (py "SCRIPGENETOR_MODEL") = Some (c :: v)))
  /\ (validate_environment getenv = EnvOk ->
      let request :=
        openrouter_request SYSTEM_PROMPT SYSTEM_PROMPT_NO_LINK
          (getenv (py "SCRIPGENETOR_MODEL")) paper paper_id in
      getenv (py "SCRIPGENETOR_MODEL") = Some (model request)
      /\ _process_script_openrouter SYSTEM_PROMPT SYSTEM_PROMPT_NO_LINK
           (getenv (py "OPENROUTER_API_KEY"))
           (getenv (py "SCRIPGENETOR_MODEL"))
           create_with_completion exn_text paper paper_id
         = match create_with_completion request with
           | Raise e => Raise (generation_failed exn_text e)
           | Return None =>
               Raise (generation_failed exn_text
                        (ValueError
                           [py "Empty response received from model"]))
           | Return (Some response) => Return (reconstruct_script response)
           end).
Proof.
  assert (Hiff : validate_environment getenv = EnvOk
                 <-> env_set getenv (py "OPENROUTER_API_KEY") = true
                     /\ env_set getenv (py "SCRIPGENETOR_MODEL") = true).
  { unfold validate_environment, REQUIRED_ENV_VARS. cbn [filter].
    destruct (env_set getenv (py "OPENROUTER_API_KEY"));
      destruct (env_set getenv (py "SCRIPGENETOR_MODEL")); cbn [negb];
      split; try discriminate; try easy; intros [? ?]; discriminate. }
  split.
  - rewrite Hiff, !env_set_iff. reflexivity.
  - intros H. apply Hiff in H as [Hk Hm].
    apply env_set_iff in Hk as (c & v & Hk).
    apply env_set_iff in Hm as (c' & v' & Hm).
    cbv zeta. unfold _process_script_openrouter. rewrite Hk, Hm.
    split; reflexivity.
Qed.

Lemma validated_environment_reaches_backend_witness :
  let getenv := fun _ : str => Some (py "set") in
  getenv (py "SCRIPGENETOR_MODEL")
  = Some (model (openrouter_request [] []
                   (getenv (py "SCRIPGENETOR_MODEL")) [] [])).
Proof.
  cbv zeta.
  apply (proj2 (validated_environment_reaches_backend
                  (fun _ => Some (py "set")) [] []
                  (fun _ => Return None) (fun _ => []) [] [])).
  reflexivity.
Defined.

(** ** Logging hooks *)

(** X18: a parse error is reported with what the latest attempt left in the
    state: after any history, the records added for an attempt are those
    of its own keyword arguments and response, and the records already
    written stay in front of them. *)
Theorem parse_error_reports_latest_attempt
        (tag : str) (events : list HookEvent)
        (kwargs : CompletionKwargs) (response : option Completion)
        (error : str) :
  snd (create_logging_hooks tag
         (events ++ [COMPLETION_KWARGS kwargs; COMPLETION_RESPONSE response;
                     PARSE_ERROR error]))
  = snd (create_logging_hooks tag events)
    ++ on_parse_error tag
         (on_response (on_kwargs (mkHookState None None) kwargs) response)
         error.
Proof.
  unfold create_logging_hooks. rewrite fold_left_app.
  destruct (fold_left (emit tag) events (mkHookState None None, []))
    as [state log].
  reflexivity.
Qed.


(** *** The loop over the messages *)









(** X20: for a request of this module, the prompt excerpt of a parse error is
    the start of the user message: the fixed sentence, the identifier,
    then the document, cut at 1000 characters. *)
Theorem prompt_excerpt_of_own_request
        (tag error : str) (state : HookState)
        (request : CompletionRequest) (kwargs : CompletionKwargs) :
  kw_messages kwargs = Some (request_messages request) ->
  user_content request <> [] ->
  In (log_line tag (py "Prompt excerpt: ")
        (firstn 1000 (user_content request)))
     (on_parse_error tag (on_kwargs state kwargs) error).
Proof.
  intros Hm Hu. unfold on_parse_error, on_kwargs.
  cbn [state_kwargs kept_model kept_messages].
  rewrite Hm. cbn [request_messages or_else truthy_list].
  cbn [last_user_prompt fold_left].
  change (str_eqb (py "system") (py "user")) with false.
  change (str_eqb (py "user") (py "user")) with true. cbv iota.
  destruct (user_content request) as [|c u] eqn:Eu; [contradiction|].
  apply in_or_app. right. apply in_or_app. right.
  apply in_or_app. left. now left.
Qed.

Lemma prompt_excerpt_of_own_request_witness :
  In (log_line (py "openrouter") (py "Prompt excerpt: ")
        (firstn 1000
           (user_content (openrouter_request [] [] None (py "text")
                            (py "X")))))
     (on_parse_error (py "openrouter")
        (on_kwargs (mkHookState None None)
           (mkKwargs None
              (Some (request_messages
                       (openrouter_request [] [] None (py "text") (py "X"))))
              None None None None None))
        (py "bad json")).
Proof.
  apply prompt_excerpt_of_own_request; [reflexivity|discriminate].
Defined.

(** ** Legacy correction of figure links *)

Lemma join_occurs (sep : str) (ls : list str) (l : str) :
  In l ls -> exists a b, join sep ls = a ++ l ++ b.
Proof.
  induction ls as [|x ls IH]; [easy|]. intros [->|H].
  - destruct ls as [|y ls].
    + exists [], []. cbn. now rewrite app_nil_r.
    + exists [], (sep ++ join sep (y :: ls)). now rewrite join_cons.
  - destruct ls as [|y ls]; [destruct H|].
    destruct (IH H) as (a & b & E). rewrite join_cons, E.
    exists (x ++ sep ++ a), b. now rewrite <- !app_assoc.
Qed.

Lemma contains_in_segment (p s seg : str) (sep : ascii) :
  In seg (split sep s) -> contains p seg = true -> contains p s = true.
Proof.
  intros Hin Hp. destruct (join_occurs [sep] _ _ Hin) as (a & b & E).
  rewrite join_split in E. rewrite E.
  apply contains_inside with (k := seg); [exact Hp|apply contains_intro].
Qed.

Lemma correct_lines_untouched (head : Network) (url : str) (calls : nat)
      (lines : list str) :
  (forall line, In line lines -> needs_correction line = false) ->
  correct_lines head url calls lines = Return lines.
Proof.
  induction lines as [|line rest IH]; intros H; [reflexivity|].
  cbn [correct_lines]. unfold correct_line.
  rewrite (H line) by now left.
  rewrite IH; [reflexivity|]. intros l Hl. apply H. now right.
Qed.

Lemma split_single (sep : ascii) (s x : str) : split sep s = [x] -> x = s.
Proof.
  intros E. rewrite <- (join_split sep s), E. reflexivity.
Qed.

(** The base address can be computed for every address but the empty
    one, on which the element before the last of a one-element list is
    read. *)
Lemma ar5iv_url_raises_iff (url : str) :
  (exists e, ar5iv_url url = Raise e) <-> url = [].
Proof.
  split.
  - intros [e H]. unfold ar5iv_url in H.
    destruct (contains (py "ar5iv") url); [discriminate H|]. cbn [negb] in H.
    unfold last_item, item_before_last in H.
    destruct (rev (split "/"%char url)) as [|x rest] eqn:Er.
    + apply (f_equal (@rev str)) in Er. rewrite rev_involutive in Er.
      now apply split_nonempty in Er.
    + destruct (str_eqb x []) eqn:Ex; [|discriminate H]. cbn [negb] in H.
      destruct rest as [|y rest]; [|discriminate H].
      apply (f_equal (@rev str)) in Er. rewrite rev_involutive in Er.
      apply split_single in Er. apply str_eqb_eq in Ex. congruence.
  - intros ->. now exists IndexError.
Qed.

(** X21: an empty address makes the correction raise IndexError, whatever the
    script and the network; any other address is accepted, and a script
    without a figure line then comes back as it is and no request is
    made. *)
Theorem script_without_figure_unchanged
        (head : Network) (script url : str) :
  (url = [] -> _correct_result_link head script url = Raise IndexError)
  /\ (url <> [] -> contains (py "Figure: ") script = false ->
      _correct_result_link head script url = Return script).
Proof.
  split.
  - intros ->. reflexivity.
  - intros Hu Hf. unfold _correct_result_link.
    destruct (ar5iv_url url) as [url'|e] eqn:Eu.
    + rewrite correct_lines_untouched.
      * f_equal. apply (join_split "n"%char).
      * intros line Hl. unfold needs_correction.
        destruct (contains (py "Figure: ") line) eqn:E; [|reflexivity].
        apply (contains_in_segment _ _ _ _ Hl) in E. congruence.
    + exfalso. apply Hu. apply ar5iv_url_raises_iff. now exists e.
Qed.

Lemma script_without_figure_unchanged_witness :
  _correct_result_link (fun _ _ => None)
    (py "Headline: no figure" ++ [nl] ++ py "and no other line")
    (py "https://arxiv.org/abs/1706.03762")
  = Return (py "Headline: no figure" ++ [nl] ++ py "and no other line").
Proof.
  apply script_without_figure_unchanged; [discriminate|reflexivity].
Defined.

Lemma correct_line_offline (head : Network) (url line : str) (calls : nat) :
  (forall n u r, head n u = Some r -> is_png r = false) ->
  (exists calls', correct_line head url calls line = Return (line, calls'))
  \/ correct_line head url calls line = Raise IndexError.
Proof.
  intros Hoff. unfold correct_line.
  destruct (needs_correction line); [|left; now eexists].
  unfold figure_url.
  destruct (contains (py "/html/") _).
  - destruct (head calls _) as [r|] eqn:E1; [|left; now eexists].
    rewrite (Hoff _ _ _ E1).
    destruct (head (S calls) _) as [r'|] eqn:E2; [|left; now eexists].
    rewrite (Hoff _ _ _ E2). left; now eexists.
  - destruct (replace (py "Figure: ") [] line) as [|c rest]; [now right|].
    destruct (head calls _) as [r|] eqn:E1; [|left; now eexists].
    rewrite (Hoff _ _ _ E1).
    destruct (head (S calls) _) as [r'|] eqn:E2; [|left; now eexists].
    rewrite (Hoff _ _ _ E2). left; now eexists.
Qed.

Lemma correct_lines_offline (head : Network) (url : str)
      (lines : list str) (calls : nat) :
  (forall n u r, head n u = Some r -> is_png r = false) ->
  correct_lines head url calls lines = Return lines
  \/ correct_lines head url calls lines = Raise IndexError.
Proof.
  intros Hoff. revert calls.
  induction lines as [|line rest IH]; intros calls; [now left|].
  cbn [correct_lines].
  destruct (correct_line_offline head url line calls Hoff)
    as [[calls' ->]| ->]; [|now right].
  destruct (IH calls') as [-> | ->]; [now left|now right].
Qed.

(** X22: when no request is answered with a PNG (refused, failed or any other
    answer), nothing is rewritten: the script comes back as it is, unless
    an empty address or a figure line with nothing after its label raises
    IndexError. *)
Theorem offline_correction_changes_nothing
        (head : Network) (script url : str) :
  (forall n u r, head n u = Some r -> is_png r = false) ->
  _correct_result_link head script url = Return script
  \/ _correct_result_link head script url = Raise IndexError.
Proof.
  intros Hoff. unfold _correct_result_link.
  destruct (ar5iv_url url) as [url'|e] eqn:Eu.
  - destruct (correct_lines_offline head url' (split "n"%char script) 0 Hoff)
      as [-> | ->]; [left|now right].
    f_equal. apply (join_split "n"%char).
  - right. assert (H : url = [])
      by (apply ar5iv_url_raises_iff; now exists e).
    subst url. now injection Eu as <-.
Qed.

Lemma offline_correction_changes_nothing_witness :
  _correct_result_link (fun _ _ => None)
    (py "Figure: /html/1706.03762/x1.png") (py "1706.03762")
  = Return (py "Figure: /html/1706.03762/x1.png")
  \/ _correct_result_link (fun _ _ => None)
       (py "Figure: /html/1706.03762/x1.png") (py "1706.03762")
     = Raise IndexError.
Proof.
  apply offline_correction_changes_nothing. discriminate.
Defined.

(** ** Documents in pieces, and the text that comes out *)

Lemma split_app (sep : ascii) (a b : str) :
  split sep (a ++ sep :: b) = split sep a ++ split sep b.
Proof.
  induction a as [|c a IH]; simpl.
  - now rewrite Ascii.eqb_refl.
  - rewrite IH. destruct (Ascii.eqb c sep); [reflexivity|].
    pose proof (split_nonempty sep a) as Hne.
    destruct (split sep a); [contradiction|reflexivity].
Qed.

Lemma join_app (sep : str) (l1 l2 : list str) :
  l1 <> [] -> l2 <> [] ->
  join sep (l1 ++ l2) = join sep l1 ++ sep ++ join sep l2.
Proof.
  intros H1 H2. induction l1 as [|x l1 IH]; [contradiction|].
  destruct l1 as [|y l1].
  - destruct l2 as [|z l2]; [contradiction|]. reflexivity.
  - change ((x :: y :: l1) ++ l2) with (x :: y :: (l1 ++ l2)).
    rewrite !join_cons.
    change (y :: l1 ++ l2) with ((y :: l1) ++ l2).
    rewrite IH by discriminate. now rewrite <- !app_assoc.
Qed.

(** X23: normalizing two documents joined by a line break is normalizing each
    and joining the results: the normalizer works line by line, whatever
    the identifier. *)
Theorem adjust_links_by_pieces (first second paper_id : str) :
  adjust_links (first ++ [nl] ++ second) paper_id
  = adjust_links first paper_id ++ [nl] ++ adjust_links second paper_id.
Proof.
  rewrite !adjust_links_linewise.
  change (first ++ [nl] ++ second) with (first ++ nl :: second).
  rewrite split_app, map_app. apply join_app.
  - pose proof (split_nonempty nl first).
    destruct (split nl first); [contradiction|discriminate].
  - pose proof (split_nonempty nl second).
    destruct (split nl second); [contradiction|discriminate].
Qed.

Lemma join_starts_with (sep x : str) (rest : list str) :
  starts_with x (join sep (x :: rest)) = true.
Proof.
  destruct rest as [|y rest].
  - cbn [join]. rewrite <- (app_nil_r x) at 2. apply starts_with_app.
  - rewrite join_cons. apply starts_with_app.
Qed.

(** The text of a script that the validator returned opens with a
    Headline line. *)
Lemma validated_text_opens_with_headline
      (expected : str) (values script : ArxflixScript) :
  validate_script_structure expected values = Return script ->
  starts_with (backslash :: py "Headline: ") (reconstruct_script script)
  = true.
Proof.
  intros Hv.
  destruct (validate_return_inv _ _ _ Hv) as (_ & _ & _ & Hf & _ & _).
  unfold reconstruct_script.
  destruct (components script) as [|first rest]; [discriminate Hf|].
  cbn [starts_with_headline] in Hf. unfold is_headline in Hf.
  apply str_eqb_eq in Hf. cbn [map].
  pose proof (join_starts_with [nl] (script_line first)
                (map script_line rest)) as H.
  apply starts_with_inv in H as [r ->].
  unfold script_line. rewrite Hf.
  change (([backslash] ++ ScriptComponentType.HEADLINE ++ py ": "
           ++ content first) ++ r)
    with ((backslash :: py "Headline: ") ++ content first ++ r).
  apply starts_with_app.
Qed.

Section PipelineText.
Variable SYSTEM_PROMPT SYSTEM_PROMPT_NO_LINK : str.
Variable OPENROUTER_API_KEY : option str.
Variable SCRIPGENETOR_MODEL : option str.
Variable create_with_completion :
  CompletionRequest -> Result (option ArxflixScript).
Variable exn_text : Exn -> str.

(** X24: when the client only hands back responses that the schema of the
    request accepted, every text [process_script] returns opens with a
    Headline line. *)
Theorem returned_text_opens_with_headline
        (method paper_markdown paper_id : str) (from_pdf : bool) (s : str) :
  (forall request response,
      create_with_completion request = Return (Some response) ->
      exists candidate, response_model request candidate = Return response) ->
  process_script SYSTEM_PROMPT SYSTEM_PROMPT_NO_LINK OPENROUTER_API_KEY
    SCRIPGENETOR_MODEL create_with_completion exn_text
    method paper_markdown paper_id from_pdf = Return s ->
  starts_with (backslash :: py "Headline: ") s = true.
Proof.
  intros Hclient Hrun.
  apply process_script_returns_iff in Hrun
    as (_ & _ & response & Hr & ->).
  destruct (Hclient _ _ Hr) as [candidate Hc].
  cbn [openrouter_request response_model] in Hc.
  unfold generate_model_with_context_check in Hc.
  now apply validated_text_opens_with_headline in Hc.
Qed.
End PipelineText.

Lemma returned_text_opens_with_headline_witness :
  starts_with (backslash :: py "Headline: ")
    (reconstruct_script headline_then_text) = true.
Proof.
  apply (returned_text_opens_with_headline [] [] (Some (py "sk-or-key")) None
           (fun request =>
              match response_model request headline_then_text with
              | Return response => Return (Some response)
              | Raise e => Raise e
              end)
           (fun _ => [])
           (py "openrouter") bare_reference (py "2405.11273") false).
  - intros request response H.
    destruct (response_model request headline_then_text) as [r|e] eqn:E;
      [|discriminate H].
    injection H as <-. now exists headline_then_text.
  - reflexivity.
Defined.
